(** * Sincera data collection: a shallow embedding of the two pipeline scripts

    [1_create_domain_sample.py] builds a per-network sample of domains and
    [2_collect_sincera_data.py] fetches metrics for every sampled domain
    behind a per-minute / per-day rate limiter, with retries and
    incremental checkpoints.

    Python code that reads the clock, sleeps, talks to the HTTP server or
    writes files is embedded in a state-and-exception monad over an explicit
    [World].  Time is counted in milliseconds (Python uses floating-point
    seconds; rounding of floats is not modelled). *)

From stdpp Require Import gmap strings list sorting pretty.
From Stdlib Require Import ZArith Lia Ascii QArith_base.

Local Open Scope string_scope.
Local Open Scope list_scope.
Local Open Scope Z_scope.

(** ** Python values, exceptions *)

(** A JSON value. Numbers are kept as rationals. *)
#[warnings="-register-all"]
Inductive Json : Type :=
  | JNull
  | JBool (b : bool)
  | JNum (q : Q)
  | JStr (s : string)
  | JArr (items : list Json)
  | JObj (fields : list (string * Json)).

(** What [response.json()] yields: a dict, another JSON value (array,
    number, string, true, false, null), or a decode error. *)
Inductive JsonBody : Type :=
  | BodyDict (fields : list (string * Json))
  | BodyOther (v : Json)
  | BodyInvalid (msg : string).

(** The values stored in result dictionaries. [VIso t] is the string
    [datetime.isoformat()] of the clock value [t]. *)
Inductive PyVal : Type :=
  | VNone
  | VBool (b : bool)
  | VStr (s : string)
  | VJson (j : Json)
  | VIso (t : Z).

Inductive Exn : Type :=
  | ValueError (msg : string)
  | AttributeError
  | IndexError
  | KeyError (key : string)
  | ZeroDivisionError
  | RequestException (msg : string).

(** Why the program pauses; kept with each sleep for bookkeeping only. *)
Inductive Pause : Type :=
  | RateLimitWait
  | RetryAfterWait
  | BackoffWait.

Inductive Outcome (A : Type) : Type :=
  | Returned (a : A)
  | Raised (e : Exn).
Arguments Returned {A} a.
Arguments Raised {A} e.

(** ** The world: clock, HTTP server, rate-limiter globals, checkpoint files *)

(** Module-level globals [_request_times], [_requests_today], [_current_day]
    (the day is the number of the calendar day). *)
Record RateState := mkRate {
  _request_times : list Z;
  _requests_today : Z;
  _current_day : Z
}.

Record Response := mkResponse {
  status_code : Z;
  retry_after : option string;      (* headers.get('Retry-After') *)
  text : string;
  json : JsonBody                   (* what response.json() does *)
}.

(** What one call of [requests.get] does: answer, or raise a
    [requests.exceptions.RequestException] whose [str] is the message. *)
Inductive Reply : Type :=
  | Answer (r : Response)
  | Fails (msg : string).

Abbreviation Result := (gmap string PyVal).

(** A row of the domain tables: columns [domain] and [network]
    ([None] is a missing value). *)
Record Row := mkRow {
  row_domain : string;
  row_network : option string
}.

Record World := mkWorld {
  clock : Z;                          (* current time, ms since the epoch *)
  delays : list N;                    (* time that passes before each clock read *)
  server : list Reply;                (* what the next calls of requests.get do *)
  http_log : list string;             (* domains requested so far, latest last *)
  sleep_log : list (Pause * Z);       (* sleeps so far (reason, ms), latest last *)
  limiter : RateState;
  issued : list Z;                    (* timestamps recorded by the rate limiter, latest last *)
  checkpoints : list (Z * list Result); (* batch files written: batch_num, rows *)
  dirs : gset string;                 (* directories that exist *)
  pickles : gmap string (list Row)    (* pickled domain tables, by path *)
}.

Definition M (A : Type) : Type := World → Outcome A * World.

Definition ret {A} (a : A) : M A := λ w, (Returned a, w).
Definition raise {A} (e : Exn) : M A := λ w, (Raised e, w).
Definition bind {A B} (m : M A) (k : A → M B) : M B :=
  λ w, match m w with
       | (Returned a, w') => k a w'
       | (Raised e, w') => (Raised e, w')
       end.

(** [try: m except RequestException as e: h e] *)
Definition try_except_request {A} (m : M A) (h : string → M A) : M A :=
  λ w, match m w with
       | (Raised (RequestException msg), w') => h msg w'
       | r => r
       end.

Declare Scope py_scope.
Delimit Scope py_scope with py.
Notation "x <- m ;; k" := (bind m (λ x, k))
  (at level 100, m at next level, right associativity) : py_scope.
Notation "m ;;; k" := (bind m (λ _, k))
  (at level 100, right associativity) : py_scope.
Local Open Scope py_scope.

Definition get_limiter : M RateState := λ w, (Returned (limiter w), w).

Definition set_limiter (s : RateState) : M unit := λ w,
  (Returned tt,
   mkWorld (clock w) (delays w) (server w) (http_log w) (sleep_log w) s
           (issued w) (checkpoints w) (dirs w) (pickles w)).

(** Reading the clock: the next delay (none once the list is used up) passes
    first.  [time.time()] and [datetime.now()] read the same clock. *)
Definition advance (w : World) : World :=
  match delays w with
  | [] => w
  | d :: ds =>
      mkWorld (clock w + Z.of_N d) ds (server w) (http_log w) (sleep_log w)
              (limiter w) (issued w) (checkpoints w) (dirs w) (pickles w)
  end.

Definition time_time : M Z := λ w, let w' := advance w in (Returned (clock w'), w').
Definition datetime_now : M Z := time_time.

Definition SECOND : Z := 1000.
Definition DAY : Z := 86400 * SECOND.

(** [datetime.now().date()].  Every day has 86400 seconds: a day on which
    the local clock is set back or forward is not modelled. *)
Definition date_of (t : Z) : Z := t `div` DAY.
Definition datetime_now_date : M Z := t <- datetime_now;; ret (date_of t).

(** [time.sleep(d)] for [d] milliseconds; a negative length is refused.
    Python also refuses a length beyond the range of its 64-bit nanosecond
    clock, some 292 years, with [OverflowError], and the system call behind
    it one that takes the system's clock out of range: this upper limit is
    not modelled.  The waits of the limiter and of the backoff stay far
    below it; the properties of a [Retry-After] wait bound its length by
    [LONGEST_RETRY_AFTER]. *)
Definition time_sleep (why : Pause) (d : Z) : M unit := λ w,
  if d <? 0 then (Raised (ValueError "sleep length must be non-negative"), w)
  else (Returned tt,
        mkWorld (clock w + d) (delays w) (server w) (http_log w)
                (sleep_log w ++ [(why, d)]) (limiter w) (issued w) (checkpoints w)
                (dirs w) (pickles w)).

(** ** The rate limiter *)

Definition REQUESTS_PER_MINUTE : Z := 45.
Definition REQUESTS_PER_DAY : Z := 5000.

(** [while _request_times and now - _request_times[0] >= 60: popleft()] *)
Fixpoint evict (now : Z) (q : list Z) : list Z :=
  match q with
  | [] => []
  | t :: q' => if 60 * SECOND <=? now - t then evict now q' else q
  end.

Definition evict_old (now : Z) : M unit :=
  s <- get_limiter;;
  set_limiter (mkRate (evict now (_request_times s)) (_requests_today s) (_current_day s)).

Definition reset_day (day : Z) : M unit := set_limiter (mkRate [] 0 day).

Definition record_request (t : Z) : M unit := λ w,
  let s := limiter w in
  (Returned tt,
   mkWorld (clock w) (delays w) (server w) (http_log w) (sleep_log w)
           (mkRate (_request_times s ++ [t]) (_requests_today s + 1) (_current_day s))
           (issued w ++ [t]) (checkpoints w) (dirs w) (pickles w)).

Definition respect_rate_limits : M unit :=
  now <- time_time;;
  today <- datetime_now_date;;
  s <- get_limiter;;
  (if bool_decide (today ≠ _current_day s) then reset_day today else ret tt);;;
  s <- get_limiter;;
  now <- (if REQUESTS_PER_DAY <=? _requests_today s then
            current <- datetime_now;;
            let wait_seconds := (today + 1) * DAY - current in
            time_sleep RateLimitWait (Z.max 0 wait_seconds);;;
            day <- datetime_now_date;;
            reset_day day;;;
            time_time
          else ret now);;
  evict_old now;;;
  s <- get_limiter;;
  (if REQUESTS_PER_MINUTE <=? Z.of_nat (length (_request_times s)) then
     match _request_times s with
     | [] => raise IndexError
     | oldest :: _ =>
         let wait_time := 60 * SECOND - (now - oldest) in
         (if 0 <? wait_time then time_sleep RateLimitWait wait_time else ret tt);;;
         now <- time_time;;
         evict_old now
     end
   else ret tt);;;
  t <- time_time;;
  record_request t.

(** ** The fetcher *)

(** The whitespace of [str.strip()] in Latin-1 text. *)
Definition is_space (c : ascii) : bool :=
  let n := nat_of_ascii c in
  ((9 <=? n) && (n <=? 13) || (28 <=? n) && (n <=? 32) || (n =? 133) || (n =? 160))%nat.

(** The whitespace [int(s)] skips around a literal: unlike [str.strip()] it
    stops at the separators [\x1c] to [\x1f]. *)
Definition is_int_space (c : ascii) : bool :=
  let n := nat_of_ascii c in
  ((9 <=? n) && (n <=? 13) || (n =? 32) || (n =? 133) || (n =? 160))%nat.

Definition digit_of (c : ascii) : option Z :=
  let n := nat_of_ascii c in
  if ((48 <=? n) && (n <=? 57))%nat then Some (Z.of_nat n - 48) else None.

Fixpoint drop_spaces (l : list ascii) : list ascii :=
  match l with
  | [] => []
  | c :: l' => if is_space c then drop_spaces l' else l
  end.

Definition strip_chars (l : list ascii) : list ascii :=
  reverse (drop_spaces (reverse (drop_spaces l))).

Fixpoint drop_int_spaces (l : list ascii) : list ascii :=
  match l with
  | [] => []
  | c :: l' => if is_int_space c then drop_int_spaces l' else l
  end.

(** Python's [int(s)] on text: whitespace, an optional sign, decimal digits
    with single underscores between digits, whitespace.  [scan_digits]
    reads the run of digits and underscores and yields its value, the
    number of its digits and the text after it; [need_digit] holds at the
    start of the run and after an underscore, where the run can neither end
    nor go on with an underscore. *)
Fixpoint scan_digits (acc digits : Z) (need_digit : bool) (l : list ascii)
    : option (Z * Z * list ascii) :=
  match l with
  | [] => if need_digit then None else Some (acc, digits, [])
  | c :: l' =>
      match digit_of c with
      | Some d => scan_digits (10 * acc + d) (digits + 1) false l'
      | None =>
          if Ascii.eqb c "_"%char then
            if need_digit then None else scan_digits acc digits true l'
          else if need_digit then None else Some (acc, digits, l)
      end
  end.

(** [sys.get_int_max_str_digits()], as Python sets it (since 3.11, and in
    the later releases of 3.7 to 3.10). *)
Definition MAX_STR_DIGITS : Z := 4300.

Inductive Literal : Type :=
  | Number (n : Z)
  | TooLong (digits : Z)
  | Malformed.

(** The run of digits is measured before the text after it is looked at. *)
Definition py_literal (s : string) : Literal :=
  let l := drop_int_spaces (String.list_ascii_of_string s) in
  let signed :=
    match l with
    | c :: rest =>
        if Ascii.eqb c "-"%char then (true, rest)
        else if Ascii.eqb c "+"%char then (false, rest)
        else (false, l)
    | [] => (false, l)
    end in
  match scan_digits 0 0 true signed.2 with
  | None => Malformed
  | Some (n, digits, rest) =>
      if MAX_STR_DIGITS <? digits then TooLong digits
      else
        match drop_int_spaces rest with
        | [] => Number (if signed.1 then - n else n)
        | _ :: _ => Malformed
        end
  end.


(** Both refusals are a [ValueError].  The message of a malformed literal
    quotes the text as [repr] shows printable text without quotes. *)
Definition int_of_text (s : string) : M Z :=
  match py_literal s with
  | Number n => ret n
  | TooLong digits =>
      raise (ValueError ("Exceeds the limit (4300 digits) for integer string conversion: value has "
                         +:+ pretty digits
                         +:+ " digits; use sys.set_int_max_str_digits() to increase the limit"))
  | Malformed =>
      raise (ValueError ("invalid literal for int() with base 10: '" +:+ s +:+ "'"))
  end.

(** [requests.get(API_BASE_URL, params={'domain': domain}, ...)]: the server
    script decides; once it is used up every call fails to connect. *)
Definition requests_get (domain : string) : M Response := λ w,
  let logged rest :=
    mkWorld (clock w) (delays w) rest (http_log w ++ [domain]) (sleep_log w)
            (limiter w) (issued w) (checkpoints w) (dirs w) (pickles w) in
  match server w with
  | [] => (Raised (RequestException "connection failed"), logged [])
  | Answer r :: rest => (Returned r, logged rest)
  | Fails msg :: rest => (Raised (RequestException msg), logged rest)
  end.

Definition py_of_json (j : Json) : PyVal :=
  match j with
  | JNull => VNone
  | JBool b => VBool b
  | JStr s => VStr s
  | _ => VJson j
  end.

(** [response.json()]: a body that is not JSON raises
    [requests.exceptions.JSONDecodeError], a [RequestException]. *)
Inductive PyData : Type :=
  | DataDict (d : gmap string Json)
  | DataOther (v : Json).

Definition response_json (r : Response) : M PyData :=
  match json r with
  | BodyDict fields => ret (DataDict (list_to_map (reverse fields)))
  | BodyOther v => ret (DataOther v)
  | BodyInvalid msg => raise (RequestException msg)
  end.

(** [data.get(key)]: only a dict has [get]. *)
Definition data_get (data : PyData) (key : string) : M PyVal :=
  match data with
  | DataDict d => ret (default VNone (py_of_json <$> d !! key))
  | DataOther _ => raise AttributeError
  end.

Definition METRIC_FIELDS : list string :=
  ["publisher_id"; "name"; "visit_enabled"; "status"; "primary_supply_type";
   "pub_description"; "categories"; "slug";
   "avg_ads_to_content_ratio"; "avg_ads_in_view"; "avg_ad_refresh";
   "avg_page_weight"; "avg_cpu";
   "total_supply_paths"; "reseller_count"; "total_unique_gpids";
   "id_absorption_rate"; "owner_domain";
   "updated_at"].

(** The entries [key: data.get(key)] of the dict display, in order. *)
Fixpoint get_fields (data : PyData) (keys : list string) (acc : Result) : M Result :=
  match keys with
  | [] => ret acc
  | k :: keys' => v <- data_get data k;; get_fields data keys' (<[k := v]> acc)
  end.

Definition failure (domain : string) (err : string) : M Result :=
  t <- datetime_now;;
  ret (<["fetched_at" := VIso t]>
       (<["api_error" := VStr err]>
        (<["api_success" := VBool false]>
         {["domain" := VStr domain]}))).

(** One iteration of the [for attempt in range(max_retries)] loop either
    returns from the function or goes on to the next iteration. *)
Inductive Step : Type :=
  | Return (r : Result)
  | Continue.

(** The branches on [response.status_code]. *)
Definition handle_response (domain : string) (response : Response) : M Step :=
  if status_code response =? 200 then
    data <- response_json response;;
    fields <- get_fields data METRIC_FIELDS {["domain" := VStr domain]};;
    t <- datetime_now;;
    ret (Return (<["fetched_at" := VIso t]>
                 (<["api_error" := VNone]>
                  (<["api_success" := VBool true]> fields))))
  else if status_code response =? 404 then
    r <- failure domain "Domain not found (404)";; ret (Return r)
  else if status_code response =? 429 then
    let retry_after := default "60" (retry_after response) in
    wait_time <- int_of_text retry_after;;
    time_sleep RetryAfterWait (wait_time * SECOND);;;
    ret Continue
  else
    r <- failure domain
           ("HTTP " +:+ pretty (status_code response) +:+ ": "
            +:+ String.substring 0 200 (text response));;
    ret (Return r).

(** The body of the [try]. *)
Definition attempt_request (domain : string) : M Step :=
  respect_rate_limits;;;
  response <- requests_get domain;;
  handle_response domain response.

(** The [except requests.exceptions.RequestException as e] clause. *)
Definition on_request_exception (domain : string) (max_retries attempt : Z)
    (msg : string) : M Step :=
  if attempt =? max_retries - 1 then
    r <- failure domain ("Request exception: " +:+ msg);; ret (Return r)
  else
    time_sleep BackoffWait (2 ^ attempt * SECOND);;; ret Continue.

Definition attempt_body (domain : string) (max_retries attempt : Z) : M Step :=
  try_except_request (attempt_request domain)
    (on_request_exception domain max_retries attempt).

Fixpoint fetch_attempts (domain : string) (max_retries : Z) (attempts : list Z) : M Result :=
  match attempts with
  | [] => failure domain "Max retries exceeded"
  | attempt :: rest =>
      step <- attempt_body domain max_retries attempt;;
      match step with
      | Return r => ret r
      | Continue => fetch_attempts domain max_retries rest
      end
  end.

(** [range(n)] *)
Definition range (n : Z) : list Z := seqZ 0 n.

Definition fetch_domain_metrics (domain : string) (max_retries : Z) : M Result :=
  fetch_attempts domain max_retries (range max_retries).

Definition DEFAULT_MAX_RETRIES : Z := 3.

(** ** The collection loop *)

(** Python's [a % b] and [a // b] on integers round towards minus infinity,
    as [Z.modulo] and [Z.div] do, and refuse a zero divisor. *)
Definition py_mod (a b : Z) : M Z :=
  if b =? 0 then raise ZeroDivisionError else ret (a `mod` b).

Definition py_floordiv (a b : Z) : M Z :=
  if b =? 0 then raise ZeroDivisionError else ret (a `div` b).

(** A true division [a / b] whose quotient is only printed. *)
Definition printed_quotient (b : Z) : M unit :=
  if b =? 0 then raise ZeroDivisionError else ret tt.

(** [l[k:]] *)
Definition slice_from {A} (k : Z) (l : list A) : list A :=
  let n := Z.of_nat (length l) in
  let start := if k <? 0 then Z.max 0 (n + k) else Z.min k n in
  drop (Z.to_nat start) l.

(** [result[key]] *)
Definition getitem (r : Result) (key : string) : M PyVal :=
  match r !! key with
  | Some v => ret v
  | None => raise (KeyError key)
  end.

(** Truth value of a Python object. *)
Definition truthy (v : PyVal) : bool :=
  match v with
  | VNone => false
  | VBool b => b
  | VStr s => negb (String.eqb s "")
  | VJson (JNum q) => negb (Qnum q =? 0)
  | VJson (JArr items) => negb (bool_decide (length items = 0%nat))
  | VJson (JObj fields) => negb (bool_decide (length fields = 0%nat))
  | VJson _ => true
  | VIso _ => true
  end.

Definition py_of_text (o : option string) : PyVal :=
  match o with
  | Some s => VStr s
  | None => VNone
  end.

(** [os.makedirs(d, exist_ok=True)].  The call succeeds: a file system
    that refuses it ([OSError]) is not modelled. *)
Definition os_makedirs (d : string) : M unit := λ w,
  (Returned tt,
   mkWorld (clock w) (delays w) (server w) (http_log w) (sleep_log w) (limiter w)
           (issued w) (checkpoints w) ({[d]} ∪ dirs w) (pickles w)).

(** [pd.DataFrame(results).to_pickle(filename)] for the file of batch
    [batch_num]. *)
Definition write_batch (results : list Result) (batch_num : Z) : M unit := λ w,
  (Returned tt,
   mkWorld (clock w) (delays w) (server w) (http_log w) (sleep_log w) (limiter w)
           (issued w) (checkpoints w ++ [(batch_num, results)]) (dirs w) (pickles w)).

(** The batch file [pickles/sincera_data_batch_NNNN.pkl] is recorded by its
    number; the file name, which the caller only prints, is left out. *)
Definition save_incremental_progress (results : list Result) (batch_num : Z) : M unit :=
  os_makedirs "pickles";;;
  write_batch results batch_num.

(** The local variables the loop updates. *)
Record Progress := mkProgress {
  all_results : list Result;
  successful_requests : Z;
  failed_requests : Z
}.

(** The body of [for i, (_, row) in enumerate(sample_df.iterrows(), 1)];
    [total] is [len(sample_df)]. *)
Definition collect_row (total batch_size start_time i : Z) (row : Row) (p : Progress)
    : M Progress :=
  result <- fetch_domain_metrics (row_domain row) DEFAULT_MAX_RETRIES;;
  let result := <["network" := py_of_text (row_network row)]> result in
  let all := all_results p ++ [result] in
  ok <- getitem result "api_success";;
  p <- (if truthy ok then
          ret (mkProgress all (successful_requests p + 1) (failed_requests p))
        else
          getitem result "api_error";;;
          ret (mkProgress all (successful_requests p) (failed_requests p + 1)));;
  r <- py_mod i batch_size;;
  (if r =? 0 then
     batch_num <- py_floordiv i batch_size;;
     save_incremental_progress (slice_from (- batch_size) all) batch_num
   else ret tt);;;
  (if i `mod` 50 =? 0 then
     now <- datetime_now;;
     printed_quotient (now - start_time);;;
     printed_quotient total;;;
     printed_quotient i
   else ret tt);;;
  ret p.

Fixpoint collect_rows (total batch_size start_time i : Z) (rows : list Row) (p : Progress)
    : M Progress :=
  match rows with
  | [] => ret p
  | row :: rest =>
      p <- collect_row total batch_size start_time i row p;;
      collect_rows total batch_size start_time (i + 1) rest p
  end.

(** [if is_testing: batch_size = min(10, batch_size)] *)
Definition effective_batch_size (batch_size : Z) (is_testing : bool) : Z :=
  if is_testing then Z.min 10 batch_size else batch_size.

Definition collect_all_data (sample_df : list Row) (batch_size : Z) (is_testing : bool)
    : M (list Result) :=
  let total := Z.of_nat (length sample_df) in
  let batch_size := effective_batch_size batch_size is_testing in
  start_time <- datetime_now;;
  p <- collect_rows total batch_size start_time 1 sample_df (mkProgress [] 0 0);;
  let all := all_results p in
  let n := Z.of_nat (length all) in
  r <- py_mod n batch_size;;
  (if negb (r =? 0) then
     let remaining_start := - r in
     q <- py_floordiv n batch_size;;
     save_incremental_progress (slice_from remaining_start all) (q + 1)
   else ret tt);;;
  end_time <- datetime_now;;
  let duration := end_time - start_time in
  printed_quotient n;;;
  printed_quotient n;;;
  printed_quotient duration;;;
  ret all.

(** ** The sampler *)

(** [str.lower()] and [str.strip()].  Cells are ASCII text: the letters
    beyond ASCII, which [str.lower()] also changes, are not modelled. *)
Definition lower_char (c : ascii) : ascii :=
  let n := nat_of_ascii c in
  if ((65 <=? n) && (n <=? 90))%nat then ascii_of_nat (n + 32) else c.

Fixpoint str_lower (s : string) : string :=
  match s with
  | EmptyString => EmptyString
  | String c s' => String (lower_char c) (str_lower s')
  end.

Definition str_strip (s : string) : string :=
  String.string_of_list_ascii (strip_chars (String.list_ascii_of_string s)).

(** [Some rest] when [s] is [p] followed by [rest]. *)
Fixpoint after_prefix (p s : string) : option string :=
  match p, s with
  | EmptyString, _ => Some s
  | String a p', String b s' => if Ascii.eqb a b then after_prefix p' s' else None
  | String _ _, EmptyString => None
  end.

(** [re.sub(r'^https?://', '', s)] *)
Definition remove_protocol (s : string) : string :=
  match after_prefix "https://" s with
  | Some rest => rest
  | None => default s (after_prefix "http://" s)
  end.

(** [re.sub(r'^www\.', '', s)] *)
Definition remove_www (s : string) : string :=
  default s (after_prefix "www." s).

(** [s.split('/')[0]] *)
Fixpoint before_slash (s : string) : string :=
  match s with
  | EmptyString => EmptyString
  | String c s' => if Ascii.eqb c "/"%char then EmptyString else String c (before_slash s')
  end.

(** The cleaning both tables go through, on one cell: lower, strip, drop
    missing and empty cells, then cut protocol, [www.] and path. *)
Definition clean_domain (cell : option string) : option string :=
  s ← str_strip <$> (str_lower <$> cell);
  if String.eqb s "" then None
  else Some (before_slash (remove_www (remove_protocol s))).

(** [df.drop_duplicates(subset=['domain'])]: the first row of each domain stays. *)
Fixpoint drop_duplicates (seen : gset string) (rows : list Row) : list Row :=
  match rows with
  | [] => []
  | r :: rest =>
      if decide (row_domain r ∈ seen) then drop_duplicates seen rest
      else r :: drop_duplicates ({[row_domain r]} ∪ seen) rest
  end.

(** The order of [sort_values(['network', 'domain'])]; missing networks last. *)
Definition network_leb (a b : option string) : bool :=
  match a, b with
  | Some x, Some y => String.leb x y
  | Some _, None => true
  | None, Some _ => false
  | None, None => true
  end.

Definition network_eqb (a b : option string) : bool :=
  match a, b with
  | Some x, Some y => String.eqb x y
  | None, None => true
  | _, _ => false
  end.

Definition row_leb (r1 r2 : Row) : bool :=
  if network_eqb (row_network r1) (row_network r2)
  then String.leb (row_domain r1) (row_domain r2)
  else network_leb (row_network r1) (row_network r2).

Definition row_le (r1 r2 : Row) : Prop := Is_true (row_leb r1 r2).

Definition sort_values (rows : list Row) : list Row := merge_sort row_le rows.

(** [create_clean_domain_dataset]: its two arguments are the rows the
    Raptive query (column URL) and the competitor query (columns DOMAIN,
    NETWORK) return. *)
Definition raptive_table (urls : list (option string)) : list Row :=
  (λ d, mkRow d (Some "Raptive")) <$> omap clean_domain urls.

Definition competitor_table (rows : list (option string * option string)) : list Row :=
  omap (λ '(d, n), (λ d', mkRow d' n) <$> clean_domain d) rows.

Definition raptive_domains_set (raptive_df : list Row) : gset string :=
  list_to_set (row_domain <$> raptive_df).

Definition create_clean_domain_dataset
    (urls : list (option string)) (rows : list (option string * option string))
    : list Row :=
  let raptive_df := raptive_table urls in
  let competitor_df := competitor_table rows in
  let raptive_domains := raptive_domains_set raptive_df in
  let competitor_df_clean :=
    filter (λ r, row_domain r ∉ raptive_domains) competitor_df in
  let final_df := drop_duplicates ∅ (raptive_df ++ competitor_df_clean) in
  sort_values final_df.

(** [series.unique()]: the distinct values in order of first appearance. *)
Fixpoint unique (seen : list (option string)) (l : list (option string))
    : list (option string) :=
  match l with
  | [] => []
  | x :: l' =>
      if existsb (network_eqb x) seen then unique seen l'
      else x :: unique (x :: seen) l'
  end.

(** The mask [df['network'] == network]: a missing value equals nothing. *)
Definition network_is (network : option string) (r : Row) : bool :=
  match network, row_network r with
  | Some a, Some b => String.eqb a b
  | _, _ => false
  end.

(** [df.to_pickle(path)].  The write succeeds: a file system that refuses
    it ([OSError]) is not modelled. *)
Definition to_pickle (rows : list Row) (path : string) : M unit := λ w,
  (Returned tt,
   mkWorld (clock w) (delays w) (server w) (http_log w) (sleep_log w) (limiter w)
           (issued w) (checkpoints w) (dirs w) (<[path := rows]> (pickles w))).

(** [pd.concat(dfs, ignore_index=True)]; an empty list of tables is refused. *)
Definition pd_concat (dfs : list (list Row)) : M (list Row) :=
  match dfs with
  | [] => raise (ValueError "No objects to concatenate")
  | _ => ret (concat dfs)
  end.

Section Sampler.

(** [choose n len]: the positions that pandas' [sample(n=n,
    random_state=42)] draws from a table of [len] rows. *)
Variable choose : nat → nat → list nat.

(** [df.sample(n=n, random_state=42)]; a negative [n] is refused. *)
Definition df_sample (n : Z) (df : list Row) : M (list Row) :=
  if n <? 0 then raise (ValueError "n must be non-negative")
  else ret (omap (λ i, df !! i) (choose (Z.to_nat n) (length df))).

Definition sample_network (clean_df : list Row) (sample_size : Z)
    (network : option string) : M (list Row) :=
  let network_df := filter (λ r, Is_true (network_is network r)) clean_df in
  if network_eqb network (Some "Aditude") then ret network_df
  else if Z.of_nat (length network_df) <=? sample_size then ret network_df
  else df_sample sample_size network_df.

Fixpoint sample_networks (clean_df : list Row) (sample_size : Z)
    (networks : list (option string)) : M (list (list Row)) :=
  match networks with
  | [] => ret []
  | network :: rest =>
      sample_df <- sample_network clean_df sample_size network;;
      sampled_dfs <- sample_networks clean_df sample_size rest;;
      ret (sample_df :: sampled_dfs)
  end.

Definition create_sample_dataset (clean_df : list Row) (sample_size : Z)
    : M (list Row) :=
  sampled_dfs <- sample_networks clean_df sample_size
                   (unique [] (row_network <$> clean_df));;
  final_sample <- pd_concat sampled_dfs;;
  os_makedirs "pickles";;;
  let pickle_path := "pickles/sample_domains.pkl" in
  to_pickle final_sample pickle_path;;;
  ret final_sample.

End Sampler.

(** ** The test sample of the collector *)

Section TestSample.

(** The positions [sample(n=n, random_state=42)] draws, as in the sampler. *)
Variable choose : nat → nat → list nat.

Definition test_sample_network (sample_df : list Row) (test_size_per_network : Z)
    (network : option string) : M (list Row) :=
  let network_df := filter (λ r, Is_true (network_is network r)) sample_df in
  if Z.of_nat (length network_df) <=? test_size_per_network then ret network_df
  else df_sample choose test_size_per_network network_df.

Fixpoint test_sample_networks (sample_df : list Row) (test_size_per_network : Z)
    (networks : list (option string)) : M (list (list Row)) :=
  match networks with
  | [] => ret []
  | network :: rest =>
      test_sample <- test_sample_network sample_df test_size_per_network network;;
      test_samples <- test_sample_networks sample_df test_size_per_network rest;;
      ret (test_sample :: test_samples)
  end.

Definition create_test_sample (sample_df : list Row) (test_size_per_network : Z)
    : M (list Row) :=
  test_samples <- test_sample_networks sample_df test_size_per_network
                    (unique [] (row_network <$> sample_df));;
  pd_concat test_samples.

End TestSample.

(** * Vocabulary of the properties *)

(** The waits that answer a 429, in order. *)
Definition retry_wait (p : Pause * Z) : option Z :=
  match p.1 with
  | RetryAfterWait => Some p.2
  | _ => None
  end.

Definition retry_waits (w : World) : list Z := omap retry_wait (sleep_log w).

(** How a piece of the collector changes the world: it sends the requests
    [reqs], consuming as many server replies, waits [waits] after 429
    answers, lets time pass, and leaves the files alone. *)
Record effect (reqs : list string) (waits : list Z) (w w' : World) : Prop := mkEffect {
  ef_http : http_log w' = http_log w ++ reqs;
  ef_server : server w' = drop (length reqs) (server w);
  ef_waits : retry_waits w' = retry_waits w ++ waits;
  ef_checkpoints : checkpoints w' = checkpoints w;
  ef_dirs : dirs w' = dirs w;
  ef_pickles : pickles w' = pickles w;
  ef_clock : clock w ≤ clock w'
}.

(** [m] always returns, and only moves the clock and the limiter. *)
Definition quiet {A} (m : M A) : Prop :=
  ∀ w, ∃ a w', m w = (Returned a, w') ∧ effect [] [] w w'.

(** The shape every returned record has. *)
Definition well_shaped (domain : string) (res : Result) : Prop :=
  res !! "domain" = Some (VStr domain) ∧
  (∃ t, res !! "fetched_at" = Some (VIso t)) ∧
  ((res !! "api_success" = Some (VBool true) ∧ res !! "api_error" = Some VNone) ∨
   (res !! "api_success" = Some (VBool false) ∧
    ∃ msg, res !! "api_error" = Some (VStr msg))).

Definition failure_record (domain err : string) (t : Z) : Result :=
  <["fetched_at" := VIso t]>
    (<["api_error" := VStr err]>
       (<["api_success" := VBool false]> {["domain" := VStr domain]})).





(** A fresh process started at time [t]: nothing sent, nothing written,
    the limiter's globals as the module initialises them. *)
Definition world_at (t : Z) (ds : list N) (sv : list Reply) : World :=
  mkWorld t ds sv [] [] (mkRate [] 0 (date_of t)) [] [] ∅ ∅.

Definition http_date_429 : Response :=
  mkResponse 429 (Some "Wed, 21 Oct 2015 07:28:00 GMT") "" (BodyInvalid "Expecting value").

Definition json_list_200 : Response :=
  mkResponse 200 None "[]" (BodyOther (JArr [])).

(** [n] calls in a row. *)
Fixpoint acquire (n : nat) : M unit :=
  match n with
  | O => ret tt
  | S n' => respect_rate_limits;;; acquire n'
  end.

(** The recorded timestamps that lie in the 60 seconds up to [t]. *)
Definition in_window (t : Z) (ts : list Z) : list Z :=
  filter (λ x, t - 60 * SECOND < x ≤ t) ts.

Definition on_day (d : Z) (ts : list Z) : list Z :=
  filter (λ x, date_of x = d) ts.

(** 27.2 seconds before midnight; every clock read comes 200 milliseconds
    after the one before, so that a call is recorded every 600
    milliseconds. *)
Definition midnight_world : World :=
  world_at (DAY - 27200) (replicate 270 200%N) [].

(** 30 seconds before midnight; the clock reads of the first 45 calls come
    100 milliseconds apart. *)
Definition spill_world : World :=
  world_at (DAY - 30 * SECOND) (replicate 135 100%N) [].

(** The [j]-th checkpoint (counting from 0) of a run with batch size [B]:
    its batch number and the slice of the results it holds. *)
Definition batch_slice (B : Z) (rs : list Result) (j : Z) : Z * list Result :=
  (j + 1, take (Z.to_nat B) (drop (Z.to_nat (j * B)) rs)).

Definition batches_upto (B : Z) (rs : list Result) (k : Z) : list (Z * list Result) :=
  batch_slice B rs <$> seqZ 0 k.

(** The result tagged with the row it was fetched for. *)
Definition tagged (row : Row) (res : Result) : Prop :=
  res !! "domain" = Some (VStr (row_domain row)) ∧
  res !! "network" = Some (py_of_text (row_network row)).

(** The checkpoints a complete run over [rs] writes with batch size [B]. *)
Definition checkpoint_batches (B : Z) (rs : list Result) : list (Z * list Result) :=
  batches_upto B rs ((Z.of_nat (length rs) + B - 1) `div` B).

(** The world after the sampler has written its pickle. *)
Definition with_sample_pickle (sample : list Row) (w : World) : World :=
  mkWorld (clock w) (delays w) (server w) (http_log w) (sleep_log w) (limiter w)
          (issued w) (checkpoints w) ({["pickles"]} ∪ dirs w)
          (<["pickles/sample_domains.pkl" := sample]> (pickles w)).

(** Whether a run returned. *)
Definition returns {A} (r : Outcome A * World) : bool :=
  match r.1 with Returned _ => true | Raised _ => false end.

(** A choice of positions for [sample]: the first [n]. *)
Definition first_rows : nat → nat → list nat := λ n _, seq 0 n.

(** Answers of the server, and small tables. *)
Definition not_found_404 : Response :=
  mkResponse 404 None "Not Found" (BodyInvalid "Expecting value").

Definition too_many_429 : Response :=
  mkResponse 429 None "" (BodyInvalid "Expecting value").



Definition ok_200 : Response :=
  mkResponse 200 None "{}" (BodyDict [("name", JStr "A"); ("status", JNull)]).

Definition error_500 : Response :=
  mkResponse 500 None "boom" (BodyInvalid "Expecting value").

Definition three_rows : list Row :=
  [mkRow "a.com" (Some "Raptive"); mkRow "b.com" (Some "Mediavine"); mkRow "c.com" None].

Definition three_replies : list Reply :=
  [Answer not_found_404; Answer ok_200; Answer error_500].

Definition one_row : list Row := [mkRow "a.com" (Some "Raptive")].

Definition trusted_urls : list (option string) := [Some "https://www.A.com/x"].

Definition competitor_rows : list (option string * option string) :=
  [(Some "a.com", Some "Mediavine"); (Some "b.com", Some "Mediavine")].

Definition same_epoch (w w' : World) : Prop :=
  _current_day (limiter w') = _current_day (limiter w) ∧
  _requests_today (limiter w') = _requests_today (limiter w) + 1 ∧
  _requests_today (limiter w) < REQUESTS_PER_DAY ∧
  ∃ old q2,
    _request_times (limiter w) = old ++ q2 ∧
    (∀ x, x ∈ old → x + 60 * SECOND ≤ clock w') ∧
    _request_times (limiter w') = q2 ++ [clock w'] ∧
    (Z.of_nat (length (_request_times (limiter w))) ≤ REQUESTS_PER_MINUTE →
     Z.of_nat (length q2) < REQUESTS_PER_MINUTE).

Definition new_epoch (w w' : World) : Prop :=
  _request_times (limiter w') = [clock w'] ∧
  _requests_today (limiter w') = 1 ∧
  _current_day (limiter w') ≤ date_of (clock w') ∧
  ∃ mid, clock w ≤ mid ≤ clock w' ∧
    (date_of mid ≠ _current_day (limiter w) ∨ (date_of mid + 1) * DAY ≤ clock w').

(** Code outside the rate limiter and the network: it leaves the limiter's
    globals, its record of timestamps and the log of requests alone, and
    time does not go back. *)
Record outside (w w' : World) : Prop := mkOutside {
  out_limiter : limiter w' = limiter w;
  out_issued : issued w' = issued w;
  out_http : http_log w' = http_log w;
  out_clock : clock w ≤ clock w'
}.

(** What a run of the collector is made of, as far as the API can tell:
    calls of [respect_rate_limits], calls of [requests.get], and other code
    in between. *)
Inductive Event : Type :=
  | Acquire
  | Request (domain : string).

Inductive run : list Event → World → World → Prop :=
  | run_done w : run [] w w
  | run_outside tr w1 w2 w3 : outside w1 w2 → run tr w2 w3 → run tr w1 w3
  | run_acquire tr w1 w2 w3 :
      respect_rate_limits w1 = (Returned tt, w2) → run tr w2 w3 →
      run (Acquire :: tr) w1 w3
  | run_request tr domain o w1 w2 w3 :
      requests_get domain w1 = (o, w2) → run tr w2 w3 →
      run (Request domain :: tr) w1 w3.

Definition requests_of (tr : list Event) : list string :=
  omap (λ e, match e with Request d => Some d | Acquire => None end) tr.

Definition acquisitions (tr : list Event) : nat :=
  length (omap (λ e, match e with Acquire => Some tt | Request _ => None end) tr).

(** [k] attempts at a domain: before every request, one call of the limiter. *)
Definition attempts_trace (domain : string) (k : nat) : list Event :=
  concat (replicate k [Acquire; Request domain]).

Definition rows_trace (rows : list Row) (ks : list nat) : list Event :=
  concat (zip_with (λ row k, attempts_trace (row_domain row) k) rows ks).


Definition apart {A} (m : M A) : Prop := ∀ w o w', m w = (o, w') → outside w w'.

(** The error text of an answer that is neither 200, 404 nor 429. *)
Definition http_error (r : Response) : string :=
  "HTTP " +:+ pretty (status_code r) +:+ ": " +:+ String.substring 0 200 (text r).

(** The waits between failed requests, in order. *)
Definition backoff_wait (p : Pause * Z) : option Z :=
  match p.1 with
  | BackoffWait => Some p.2
  | _ => None
  end.

Definition backoff_waits (w : World) : list Z := omap backoff_wait (sleep_log w).

(** The value [data.get(key)] reads from the JSON object with the given
    members: of several members of one name the last counts, as in
    [json.loads]; a missing member reads as [None]. *)
Definition body_get (fields : list (string * Json)) (key : string) : PyVal :=
  default VNone (py_of_json <$> (list_to_map (reverse fields) : gmap string Json) !! key).

Definition three_failures : list string := ["timed out"; "timed out"; "reset by peer"].

(** The keys of a successful record. *)
Definition RECORD_KEYS : list string :=
  ["domain"; "api_success"; "api_error"; "fetched_at"] ++ METRIC_FIELDS.

(** The characters of a string. *)
Definition chars (s : string) : list ascii := String.list_ascii_of_string s.

(** An ASCII capital letter. *)
Definition is_upper (c : ascii) : Prop := (65 ≤ nat_of_ascii c ≤ 90)%nat.

(** The rows of one network, as the mask [df['network'] == network]
    selects them. *)
Definition network_rows (network : option string) (df : list Row) : list Row :=
  filter (λ r, Is_true (network_is network r)) df.

(** A table with two networks of two rows and a row without network. *)
Definition five_rows : list Row :=
  [mkRow "a.com" (Some "Aditude"); mkRow "b.com" (Some "Aditude");
   mkRow "c.com" (Some "Mediavine"); mkRow "d.com" (Some "Mediavine");
   mkRow "e.com" None].

(** * Properties *)

(** ** Reasoning about the monad *)

Lemma bind_returned {A B} (m : M A) (k : A → M B) w a w1 :
  m w = (Returned a, w1) → bind m k w = k a w1.
Proof. intros H. unfold bind. by rewrite H. Qed.

Lemma bind_raised {A B} (m : M A) (k : A → M B) w e w1 :
  m w = (Raised e, w1) → bind m k w = (Raised e, w1).
Proof. intros H. unfold bind. by rewrite H. Qed.

Lemma bind_inv {A B} (m : M A) (k : A → M B) w b w' :
  bind m k w = (Returned b, w') →
  ∃ a w1, m w = (Returned a, w1) ∧ k a w1 = (Returned b, w').
Proof.
  unfold bind. destruct (m w) as [[a|e] w1]; [eauto | discriminate].
Qed.

Lemma effect_refl w : effect [] [] w w.
Proof. split; rewrite ?app_nil_r; by try done. Qed.

Lemma effect_trans r1 d1 r2 d2 w1 w2 w3 :
  effect r1 d1 w1 w2 → effect r2 d2 w2 w3 → effect (r1 ++ r2) (d1 ++ d2) w1 w3.
Proof.
  intros [] []. split; try congruence; try lia.
  - rewrite ef_http1, ef_http0. by rewrite app_assoc.
  - rewrite ef_server1, ef_server0, drop_drop. by rewrite length_app.
  - rewrite ef_waits1, ef_waits0. by rewrite app_assoc.
Qed.

Lemma effect_trans_quiet_l r d w1 w2 w3 :
  effect [] [] w1 w2 → effect r d w2 w3 → effect r d w1 w3.
Proof. intros H1 H2. exact (effect_trans _ _ _ _ _ _ _ H1 H2). Qed.

Lemma effect_trans_quiet_r r d w1 w2 w3 :
  effect r d w1 w2 → effect [] [] w2 w3 → effect r d w1 w3.
Proof.
  intros H1 H2. pose proof (effect_trans _ _ _ _ _ _ _ H1 H2) as H.
  by rewrite !app_nil_r in H.
Qed.

Lemma quiet_ret {A} (a : A) : quiet (ret a).
Proof. intros w. exists a, w. split; [done | apply effect_refl]. Qed.

Lemma quiet_bind {A B} (m : M A) (k : A → M B) :
  quiet m → (∀ a, quiet (k a)) → quiet (bind m k).
Proof.
  intros Hm Hk w. destruct (Hm w) as (a & w1 & E1 & F1).
  destruct (Hk a w1) as (b & w2 & E2 & F2).
  exists b, w2. split; [by rewrite (bind_returned _ _ _ _ _ E1) |].
  by eapply effect_trans_quiet_l.
Qed.

Lemma effect_advance w : effect [] [] w (advance w).
Proof.
  unfold advance. destruct (delays w); [apply effect_refl |].
  split; simpl; rewrite ?app_nil_r; try done. lia.
Qed.

Lemma quiet_time_time : quiet time_time.
Proof.
  intros w. exists (clock (advance w)), (advance w). split; [done | apply effect_advance].
Qed.

Lemma quiet_datetime_now_date : quiet datetime_now_date.
Proof. apply quiet_bind; [apply quiet_time_time | intros; apply quiet_ret]. Qed.

Lemma quiet_get_limiter : quiet get_limiter.
Proof. intros w. exists (limiter w), w. split; [done | apply effect_refl]. Qed.

Lemma quiet_set_limiter s : quiet (set_limiter s).
Proof.
  intros w. eexists tt, _. split; [done |]. split; simpl; rewrite ?app_nil_r; by try done.
Qed.

Lemma quiet_record_request t : quiet (record_request t).
Proof.
  intros w. eexists tt, _. split; [done |]. split; simpl; rewrite ?app_nil_r; by try done.
Qed.

Lemma time_sleep_spec why d w :
  (d < 0 ∧ time_sleep why d w = (Raised (ValueError "sleep length must be non-negative"), w)) ∨
  (0 ≤ d ∧ ∃ w', time_sleep why d w = (Returned tt, w') ∧
     effect [] (default [] ((λ x, [x]) <$> retry_wait (why, d))) w w').
Proof.
  unfold time_sleep. destruct (Z.ltb_spec d 0); [left | right]; split; try done.
  eexists. split; [done |]. split; simpl; rewrite ?app_nil_r; try done; [| lia].
  unfold retry_waits. simpl. rewrite omap_app. simpl.
  by destruct why.
Qed.

Lemma quiet_rate_limit_sleep d : 0 ≤ d → quiet (time_sleep RateLimitWait d).
Proof.
  intros Hd w. destruct (time_sleep_spec RateLimitWait d w) as [[? _]|[_ (w' & E & F)]]; [lia |].
  by exists tt, w'.
Qed.

Lemma quiet_evict_old now : quiet (evict_old now).
Proof. apply quiet_bind; [apply quiet_get_limiter | intros; apply quiet_set_limiter]. Qed.

Create HintDb quiet.
#[local] Hint Resolve quiet_ret quiet_time_time quiet_datetime_now_date quiet_get_limiter
  quiet_set_limiter quiet_record_request quiet_evict_old : quiet.

Ltac quiet_step :=
  first [ apply quiet_bind; [| intros ?] | case_match | progress eauto with quiet ].

(** The rate limiter never raises: it always lets the caller through, and
    touches nothing but the clock and its own counters. *)
Lemma respect_rate_limits_quiet : quiet respect_rate_limits.
Proof.
  unfold respect_rate_limits, reset_day, datetime_now.
  repeat quiet_step.
  - apply quiet_rate_limit_sleep. lia.
  - exfalso. rewrite Z.leb_le in *. simpl in *. unfold REQUESTS_PER_MINUTE in *. lia.
  - apply quiet_rate_limit_sleep. rewrite Z.ltb_lt in *. lia.
Qed.

(** ** The fetcher: one attempt *)

Lemma failure_eq domain err w :
  failure domain err w
  = (Returned (failure_record domain err (clock (advance w))), advance w).
Proof. reflexivity. Qed.

Lemma failure_record_shaped domain err t : well_shaped domain (failure_record domain err t).
Proof.
  unfold well_shaped, failure_record. split_and!.
  - by simplify_map_eq.
  - exists t. by simplify_map_eq.
  - right. split; [by simplify_map_eq | exists err; by simplify_map_eq].
Qed.

Lemma get_fields_spec data keys acc w o w' :
  get_fields data keys acc w = (o, w') →
  w' = w ∧ ∀ r k, o = Returned r → k ∉ keys → r !! k = acc !! k.
Proof.
  revert acc. induction keys as [|key keys IH]; intros acc; simpl.
  - intros [= <- <-]. split; [done |]. by intros r k [= <-].
  - destruct data as [d|v]; simpl.
    + unfold bind, ret. simpl. intros H. apply IH in H as [-> H]. split; [done |].
      intros r k Hr Hk. apply not_elem_of_cons in Hk as [Hne Hk].
      rewrite (H r k Hr Hk). by rewrite lookup_insert_ne.
    + intros [= <- <-]. split; [done |]. by intros r k.
Qed.

Lemma domain_not_metric : "domain" ∉ METRIC_FIELDS.
Proof.
  unfold METRIC_FIELDS. rewrite !not_elem_of_cons. split_and!; try done. apply not_elem_of_nil.
Qed.

Lemma requests_get_spec domain w :
  ∃ o w', requests_get domain w = (o, w') ∧ effect [domain] [] w w' ∧
    match server w with
    | Answer r :: _ => o = Returned r
    | Fails msg :: _ => o = Raised (RequestException msg)
    | [] => o = Raised (RequestException "connection failed")
    end.
Proof.
  unfold requests_get.
  destruct (server w) as [|[r|msg] rest] eqn:E; eexists _, _; split_and!; try done;
    split; simpl; rewrite ?app_nil_r, ?E; by try done.
Qed.

(** Whatever the status code, handling the response sends nothing,
    waits at most once, and any record it returns is well shaped. *)
Lemma handle_response_post domain r w o w' :
  handle_response domain r w = (o, w') →
  ∃ waits, effect [] waits w w' ∧ (length waits ≤ 1)%nat ∧
    (∀ res, o = Returned (Return res) → well_shaped domain res).
Proof.
  unfold handle_response. repeat case_match.
  - unfold bind at 1. unfold response_json.
    destruct (json r) as [fields|v|msg]; unfold ret at 1, raise; cbv beta iota.
    + unfold bind at 1.
      destruct (get_fields _ _ _ w) as [o1 w1] eqn:E1.
      apply get_fields_spec in E1 as [-> Hk].
      destruct o1 as [fields'|e].
      * unfold bind, datetime_now, time_time, ret. cbv beta iota zeta.
        intros [= <- <-]. exists []. split_and!; [apply effect_advance | simpl; lia |].
        intros res [= <-]. unfold well_shaped. split_and!.
        -- rewrite !lookup_insert_ne by done.
           rewrite (Hk _ "domain" eq_refl domain_not_metric). by simplify_map_eq.
        -- eexists. by simplify_map_eq.
        -- left. by simplify_map_eq.
      * intros [= <- <-]. exists []. split_and!; [apply effect_refl | simpl; lia | done].
    + unfold bind at 1. unfold METRIC_FIELDS, get_fields, data_get, bind, raise.
      intros [= <- <-]. exists []. split_and!; [apply effect_refl | simpl; lia | done].
    + intros [= <- <-]. exists []. split_and!; [apply effect_refl | simpl; lia | done].
  - unfold bind. rewrite failure_eq. unfold ret. intros [= <- <-].
    exists []. split_and!; [apply effect_advance | simpl; lia |].
    intros res [= <-]. apply failure_record_shaped.
  - unfold bind at 1, int_of_text.
    destruct (py_literal _) as [n|digits|]; unfold ret at 1, raise; cbv beta iota.
    + unfold bind.
      destruct (time_sleep_spec RetryAfterWait (n * SECOND) w) as [[_ ->]|[_ (w1 & -> & F)]].
      * intros [= <- <-]. exists []. split_and!; [apply effect_refl | simpl; lia | done].
      * unfold ret. intros [= <- <-]. eexists. split_and!; [apply F | simpl; lia | done].
    + intros [= <- <-]. exists []. split_and!; [apply effect_refl | simpl; lia | done].
    + intros [= <- <-]. exists []. split_and!; [apply effect_refl | simpl; lia | done].
  - unfold bind. rewrite failure_eq. unfold ret. intros [= <- <-].
    exists []. split_and!; [apply effect_advance | simpl; lia |].
    intros res [= <-]. apply failure_record_shaped.
Qed.

Lemma on_request_exception_post domain max_retries attempt msg w o w' :
  on_request_exception domain max_retries attempt msg w = (o, w') →
  effect [] [] w w' ∧ (∀ res, o = Returned (Return res) → well_shaped domain res).
Proof.
  unfold on_request_exception. case_match.
  - unfold bind. rewrite failure_eq. unfold ret. intros [= <- <-].
    split; [apply effect_advance |]. intros res [= <-]. apply failure_record_shaped.
  - unfold bind.
    destruct (time_sleep_spec BackoffWait (2 ^ attempt * SECOND) w) as [[Hneg _]|[_ (w1 & -> & F)]].
    + exfalso. pose proof (Z.pow_nonneg 2 attempt). unfold SECOND in *. lia.
    + unfold ret. intros [= <- <-]. by split.
Qed.

Lemma attempt_body_post domain max_retries attempt w o w' :
  attempt_body domain max_retries attempt w = (o, w') →
  ∃ waits, effect [domain] waits w w' ∧ (length waits ≤ 1)%nat ∧
    (∀ res, o = Returned (Return res) → well_shaped domain res).
Proof.
  unfold attempt_body, try_except_request, attempt_request.
  destruct (respect_rate_limits_quiet w) as ([] & w1 & E1 & F1).
  rewrite (bind_returned _ _ _ _ _ E1).
  destruct (requests_get_spec domain w1) as (o2 & w2 & E2 & F2 & Ho).
  unfold bind at 1. rewrite E2.
  pose proof (effect_trans_quiet_l _ _ _ _ _ F1 F2) as F12.
  destruct o2 as [r|e].
  - destruct (handle_response domain r w2) as [o3 w3] eqn:E3.
    apply handle_response_post in E3 as (waits & F3 & Hlen & Hshape).
    pose proof (effect_trans _ _ _ _ _ _ _ F12 F3) as F.
    destruct o3 as [s|[]]; try (intros [= <- <-]; exists waits; by split_and!).
    intros Hh. apply on_request_exception_post in Hh as [F4 Hs].
    exists waits. split_and!; [by eapply effect_trans_quiet_r | done | done].
  - assert (∃ msg, e = RequestException msg) as [msg ->].
    { destruct (server w1) as [|[]]; naive_solver. }
    intros Hh. apply on_request_exception_post in Hh as [F4 Hs].
    exists []. split_and!; [by eapply effect_trans_quiet_r | simpl; lia | done].
Qed.

Lemma fetch_attempts_post domain max_retries attempts w o w' :
  fetch_attempts domain max_retries attempts w = (o, w') →
  ∃ k waits, effect (replicate k domain) waits w w' ∧
    (k ≤ length attempts)%nat ∧ (length waits ≤ k)%nat ∧
    (∀ res, o = Returned res → well_shaped domain res).
Proof.
  revert w. induction attempts as [|a rest IH]; intros w; simpl.
  - rewrite failure_eq. intros [= <- <-]. exists 0%nat, [].
    split_and!; [apply effect_advance | done | done |].
    intros res [= <-]. apply failure_record_shaped.
  - unfold bind at 1.
    destruct (attempt_body domain max_retries a w) as [o1 w1] eqn:E1.
    apply attempt_body_post in E1 as (waits & F1 & Hlen & Hshape).
    destruct o1 as [[res|]|e].
    + intros [= <- <-]. exists 1%nat, waits. split_and!; [done | lia | done |].
      intros ? [= <-]. by apply Hshape.
    + intros H. apply IH in H as (k & waits' & F2 & Hk & Hw & Hs).
      exists (S k), (waits ++ waits'). split_and!.
      * exact (effect_trans _ _ _ _ _ _ _ F1 F2).
      * lia.
      * rewrite length_app. lia.
      * done.
    + intros [= <- <-]. exists 1%nat, waits. split_and!; [done | lia | done | done].
Qed.

(** An attempt whose request is answered goes on with the response. *)
Lemma attempt_body_answer domain max_retries attempt w r rest :
  server w = Answer r :: rest →
  ∃ w1, effect [domain] [] w w1 ∧ server w1 = rest ∧
    attempt_body domain max_retries attempt w
    = try_except_request (handle_response domain r)
        (on_request_exception domain max_retries attempt) w1.
Proof.
  intros Hs. unfold attempt_body, attempt_request.
  destruct (respect_rate_limits_quiet w) as ([] & w1 & E1 & F1).
  destruct (requests_get_spec domain w1) as (o2 & w2 & E2 & F2 & Ho).
  rewrite (ef_server _ _ _ _ F1), Hs in Ho. simpl in Ho. subst o2.
  exists w2. split_and!.
  - by eapply effect_trans_quiet_l.
  - rewrite (ef_server _ _ _ _ F2), (ef_server _ _ _ _ F1), Hs. done.
  - unfold try_except_request. rewrite (bind_returned _ _ _ _ _ E1).
    by rewrite (bind_returned _ _ _ _ _ E2).
Qed.


Lemma handle_response_404 domain r w :
  status_code r = 404 →
  handle_response domain r w
  = (Returned (Return (failure_record domain "Domain not found (404)" (clock (advance w)))),
     advance w).
Proof. intros H. unfold handle_response. rewrite H. simpl. unfold bind. by rewrite failure_eq. Qed.



Lemma range_pos n : 0 < n → range n = 0 :: seqZ 1 (n - 1).
Proof. intros H. unfold range. rewrite seqZ_cons by done. f_equal. Qed.

(** C3.  When the first answer to the fetch of a domain is HTTP 404,
    [fetch_domain_metrics] (with at least one attempt allowed) returns after
    exactly one request and no wait for a 429: the record it returns has
    [api_success = False] and the error text ['Domain not found (404)']. *)
Theorem fetch_404_no_retry domain max_retries w r rest :
  0 < max_retries →
  server w = Answer r :: rest →
  status_code r = 404 →
  ∃ res w',
    fetch_domain_metrics domain max_retries w = (Returned res, w') ∧
    http_log w' = http_log w ++ [domain] ∧
    server w' = rest ∧
    retry_waits w' = retry_waits w ∧
    res !! "domain" = Some (VStr domain) ∧
    res !! "api_success" = Some (VBool false) ∧
    res !! "api_error" = Some (VStr "Domain not found (404)").
Proof.
  intros Hpos Hs H404. unfold fetch_domain_metrics. rewrite range_pos by done.
  simpl. unfold bind at 1.
  destruct (attempt_body_answer domain max_retries 0 w r rest Hs) as (w1 & F & Hs1 & ->).
  unfold try_except_request. rewrite handle_response_404 by done.
  unfold ret. eexists _, _. split; [done |].
  pose proof (effect_trans_quiet_r _ _ _ _ _ F (effect_advance w1)) as [].
  split_and!; try done.
  - rewrite ef_server0. simpl. by rewrite Hs.
  - by rewrite ef_waits0, app_nil_r.
Qed.


(** C10.  Every record [fetch_domain_metrics] returns, on every path, has
    the keys [domain], [fetched_at], [api_error] and [api_success];
    [api_success] is a boolean, and it is [True] exactly when [api_error] is
    [None]. *)
Theorem fetch_returns_well_shaped domain max_retries w res w' :
  fetch_domain_metrics domain max_retries w = (Returned res, w') →
  res !! "domain" = Some (VStr domain) ∧
  (∃ t, res !! "fetched_at" = Some (VIso t)) ∧
  is_Some (res !! "api_error") ∧
  ∃ b, res !! "api_success" = Some (VBool b) ∧
       (b = true ↔ res !! "api_error" = Some VNone).
Proof.
  intros H. apply fetch_attempts_post in H as (k & waits & _ & _ & _ & Hshape).
  destruct (Hshape res eq_refl) as (Hd & Ht & [[Hok Herr]|[Hok [msg Herr]]]).
  - split_and!; try done. exists true. by rewrite Herr.
  - split_and!; try done. exists false. rewrite Herr. split; [done |]. split; [done | by intros [=]].
Qed.



(** C7.  Two answers of the server that [fetch_domain_metrics] does not
    capture: a 429 whose [Retry-After] is an HTTP date makes [int()] raise
    [ValueError], and a 200 whose JSON body is a list makes [data.get]
    raise [AttributeError]; both exceptions leave the fetch. *)
Theorem fetch_raises_on_http_date :
  (fetch_domain_metrics "a.com" DEFAULT_MAX_RETRIES (world_at 1000000 [] [Answer http_date_429])).1
  = Raised (ValueError "invalid literal for int() with base 10: 'Wed, 21 Oct 2015 07:28:00 GMT'")
  ∧ (fetch_domain_metrics "a.com" DEFAULT_MAX_RETRIES (world_at 1000000 [] [Answer json_list_200])).1
  = Raised AttributeError.
Proof. split; vm_compute; reflexivity. Qed.

(** C1.  Two runs of [respect_rate_limits] around midnight.  In the first,
    45 calls before midnight and 45 calls after it all return without any
    sleep, and the 90 timestamps lie within one trailing window of 60
    seconds.  In the second, the 46th call sleeps across midnight and is
    counted on the day before; 5000 further calls follow, so that 5001
    timestamps lie on the same calendar day. *)
Theorem limits_exceeded_around_midnight :
  (let '(o, w) := acquire 90 midnight_world in
   o = Returned tt ∧
   sleep_log w = [] ∧
   Z.of_nat (length (issued w)) = 90 ∧
   Z.of_nat (length (in_window (clock w) (issued w))) = 90) ∧
  (let '(o, w) := acquire (Z.to_nat 5046) spill_world in
   o = Returned tt ∧
   Z.of_nat (length (on_day 0 (issued w))) = 45 ∧
   Z.of_nat (length (on_day 1 (issued w))) = 5001).
Proof. split; vm_compute; done. Qed.

(** ** The collection loop *)

(** C6.  On the empty sample [collect_all_data] returns nothing: the
    summary divides by the number of results, and the run ends in
    [ZeroDivisionError]. *)
Theorem collect_all_data_empty_raises batch_size is_testing w :
  (collect_all_data [] batch_size is_testing w).1 = Raised ZeroDivisionError.
Proof.
  unfold collect_all_data, bind, datetime_now, time_time, py_mod, py_floordiv,
    printed_quotient, ret, raise. simpl.
  destruct (effective_batch_size _ _ =? 0) eqn:E; [done |].
  rewrite Z.mod_0_l by (apply Z.eqb_neq in E; done). done.
Qed.

Lemma printed_quotient_inv b w u w' :
  printed_quotient b w = (Returned u, w') → w' = w ∧ b ≠ 0.
Proof.
  unfold printed_quotient. destruct (Z.eqb_spec b 0); [done |]. by intros [= <- <-].
Qed.

Lemma py_mod_inv a b w r w' :
  py_mod a b w = (Returned r, w') → w' = w ∧ b ≠ 0 ∧ r = a `mod` b.
Proof. unfold py_mod. destruct (Z.eqb_spec b 0); [done |]. by intros [= <- <-]. Qed.

Lemma py_floordiv_inv a b w r w' :
  py_floordiv a b w = (Returned r, w') → w' = w ∧ b ≠ 0 ∧ r = a `div` b.
Proof. unfold py_floordiv. destruct (Z.eqb_spec b 0); [done |]. by intros [= <- <-]. Qed.

Lemma getitem_inv r key w v w' :
  getitem r key w = (Returned v, w') → w' = w ∧ r !! key = Some v.
Proof. unfold getitem. destruct (r !! key); [| done]. by intros [= <- <-]. Qed.

Lemma save_incremental_progress_inv results batch_num w u w' :
  save_incremental_progress results batch_num w = (Returned u, w') →
  checkpoints w' = checkpoints w ++ [(batch_num, results)] ∧
  dirs w' = {["pickles"]} ∪ dirs w.
Proof. by intros [= _ <-]. Qed.

Tactic Notation "bind_inv" hyp(H) "as" ident(a) ident(w) ident(E) :=
  apply bind_inv in H as (a & w & E & H).

Lemma collect_row_spec total bs start i row p w p' w' :
  collect_row total bs start i row p w = (Returned p', w') →
  bs ≠ 0 ∧
  ∃ res, all_results p' = all_results p ++ [res] ∧
    res !! "domain" = Some (VStr (row_domain row)) ∧
    res !! "network" = Some (py_of_text (row_network row)) ∧
    checkpoints w' = checkpoints w ++
      (if i `mod` bs =? 0 then [(i `div` bs, slice_from (- bs) (all_results p'))] else []).
Proof.
  unfold collect_row. intros H.
  bind_inv H as res w1 Efetch.
  apply fetch_attempts_post in Efetch as (k & waits & F & _ & _ & Hshape).
  destruct (Hshape res eq_refl) as (Hd & _ & _).
  bind_inv H as ok w2 Eok. apply getitem_inv in Eok as [-> Hok].
  bind_inv H as p1 w3 Ecount.
  assert (w3 = w1 ∧ all_results p1
          = all_results p ++ [<["network" := py_of_text (row_network row)]> res])
    as [-> Hall].
  { destruct (truthy ok).
    - by injection Ecount as <- <-.
    - bind_inv Ecount as err w4 Eerr. apply getitem_inv in Eerr as [-> _].
      by injection Ecount as <- <-. }
  bind_inv H as r w4 Emod. apply py_mod_inv in Emod as (-> & Hbs & ->).
  bind_inv H as u w5 Esave.
  assert (checkpoints w5 = checkpoints w1 ++
      (if i `mod` bs =? 0 then [(i `div` bs, slice_from (- bs) (all_results p1))] else []))
    as Hc.
  { destruct (i `mod` bs =? 0).
    - bind_inv Esave as q w6 Ediv. apply py_floordiv_inv in Ediv as (-> & _ & ->).
      apply save_incremental_progress_inv in Esave as [-> _]. by rewrite Hall.
    - injection Esave as _ <-. by rewrite app_nil_r. }
  bind_inv H as u' w6 Eprint.
  assert (checkpoints w6 = checkpoints w5) as Hc2.
  { destruct (i `mod` 50 =? 0); [| by injection Eprint as _ <-].
    bind_inv Eprint as now w7 Enow. injection Enow as _ <-.
    bind_inv Eprint as u1 w8 E1. apply printed_quotient_inv in E1 as [-> _].
    bind_inv Eprint as u2 w9 E2. apply printed_quotient_inv in E2 as [-> _].
    apply printed_quotient_inv in Eprint as [-> _].
    unfold advance. by destruct (delays w5). }
  injection H as <- <-.
  split; [done |]. eexists. split_and!; [exact Hall | | apply lookup_insert_eq |].
  - by rewrite lookup_insert_ne.
  - by rewrite Hc2, Hc, (ef_checkpoints _ _ _ _ F).
Qed.

Lemma batch_slice_app B (rs l : list Result) j :
  0 < B → 0 ≤ j → (j + 1) * B ≤ Z.of_nat (length rs) →
  batch_slice B (rs ++ l) j = batch_slice B rs j.
Proof.
  intros HB Hj Hle. unfold batch_slice. f_equal.
  rewrite drop_app_le by lia. rewrite take_app_le; [done |].
  rewrite length_drop. lia.
Qed.

Lemma batches_upto_app B (rs l : list Result) k :
  0 < B → k * B ≤ Z.of_nat (length rs) →
  batches_upto B (rs ++ l) k = batches_upto B rs k.
Proof.
  intros HB Hle. unfold batches_upto. apply list_fmap_ext.
  intros i j Hj. apply lookup_seqZ in Hj as [-> Hi].
  apply batch_slice_app; [done | lia | nia].
Qed.

Lemma batches_upto_succ B rs k :
  0 ≤ k → batches_upto B rs (k + 1) = batches_upto B rs k ++ [batch_slice B rs k].
Proof.
  intros Hk. unfold batches_upto. rewrite seqZ_app by lia. by rewrite fmap_app.
Qed.

Lemma batches_upto_snoc B (rs : list Result) x :
  0 < B →
  let n := Z.of_nat (length rs) in
  batches_upto B (rs ++ [x]) ((n + 1) `div` B)
  = batches_upto B rs (n `div` B) ++
    (if (n + 1) `mod` B =? 0
     then [((n + 1) `div` B, slice_from (- B) (rs ++ [x]))] else []).
Proof.
  intros HB n.
  destruct (Z.eqb_spec ((n + 1) `mod` B) 0) as [H0|H0].
  - assert ((n + 1) `div` B = n `div` B + 1) as Hdiv
      by (subst n; Z.div_mod_to_equations; nia).
    assert (n + 1 = B * ((n + 1) `div` B)) as Hex by (apply Z.div_exact; lia).
    assert (0 ≤ n `div` B) as Hq by (apply Z.div_pos; lia).
    assert (n `div` B * B = n + 1 - B) as Heq by (rewrite Hdiv in Hex; nia).
    rewrite Hdiv.
    rewrite batches_upto_succ by done.
    rewrite batches_upto_app by lia.
    f_equal. unfold batch_slice, slice_from. f_equal. f_equal.
    rewrite length_app. simpl.
    assert ((- B <? 0) = true) as -> by lia.
    rewrite Heq. rewrite take_ge by (rewrite length_drop, length_app; simpl; lia).
    f_equal. lia.
  - assert ((n + 1) `div` B = n `div` B) as -> by (subst n; Z.div_mod_to_equations; nia).
    rewrite app_nil_r. apply batches_upto_app; [done |].
    subst n; Z.div_mod_to_equations; nia.
Qed.

Lemma collect_rows_spec total bs start rows : ∀ i p w p' w',
  collect_rows total bs start i rows p w = (Returned p', w') →
  i = Z.of_nat (length (all_results p)) + 1 →
  ∃ rs, all_results p' = all_results p ++ rs ∧
    Forall2 tagged rows rs ∧
    ∀ c0,
      0 < bs →
      checkpoints w
      = c0 ++ batches_upto bs (all_results p) (Z.of_nat (length (all_results p)) `div` bs) →
      checkpoints w'
      = c0 ++ batches_upto bs (all_results p') (Z.of_nat (length (all_results p')) `div` bs).
Proof.
  induction rows as [|row rows IH]; intros i p w p' w' H Hi; simpl in H.
  - injection H as <- <-. exists []. rewrite app_nil_r. split_and!; [done | constructor | done].
  - bind_inv H as p1 w1 Erow.
    apply collect_row_spec in Erow as (_ & res & Hall & Hd & Hn & Hc).
    apply IH in H as (rs & Hall' & Htag & Hck); [| rewrite Hall, length_app; simpl; lia].
    exists (res :: rs). split_and!.
    + rewrite Hall', Hall. by rewrite <- app_assoc.
    + by constructor.
    + intros c0 Hbs Hc0. apply Hck; [done |].
      rewrite Hc, Hc0, Hall, <- app_assoc. f_equal.
      rewrite length_app. simpl.
      replace (Z.of_nat (length (all_results p) + 1)) with (Z.of_nat (length (all_results p)) + 1) by lia.
      rewrite batches_upto_snoc by done. subst i. done.
Qed.

Lemma checkpoint_batches_tail B (rs : list Result) :
  0 < B →
  let n := Z.of_nat (length rs) in
  checkpoint_batches B rs
  = batches_upto B rs (n `div` B) ++
    (if negb (n `mod` B =? 0)
     then [(n `div` B + 1, slice_from (- (n `mod` B)) rs)] else []).
Proof.
  intros HB n. unfold checkpoint_batches. fold n.
  assert (0 ≤ n `div` B) as Hq by (apply Z.div_pos; lia).
  pose proof (Z.div_mod n B ltac:(lia)) as Hdm.
  pose proof (Z.mod_pos_bound n B HB) as Hr.
  destruct (Z.eqb_spec (n `mod` B) 0) as [H0|H0]; simpl.
  - assert ((n + B - 1) `div` B = n `div` B) as ->
      by (symmetry; apply (Z.div_unique _ _ _ (B - 1)); lia).
    by rewrite app_nil_r.
  - assert ((n + B - 1) `div` B = n `div` B + 1) as ->
      by (symmetry; apply (Z.div_unique _ _ _ (n `mod` B - 1)); lia).
    rewrite batches_upto_succ by done. f_equal.
    unfold batch_slice, slice_from. f_equal. f_equal. fold n.
    assert ((- (n `mod` B) <? 0) = true) as -> by lia.
    rewrite take_ge by (rewrite length_drop; lia).
    f_equal. lia.
Qed.

Lemma concat_batches_upto B (rs : list Result) (k : nat) :
  0 < B →
  concat (batches_upto B rs (Z.of_nat k)).*2 = take (k * Z.to_nat B) rs.
Proof.
  intros HB. induction k as [|k IH]; [done |].
  replace (Z.of_nat (S k)) with (Z.of_nat k + 1) by lia.
  rewrite batches_upto_succ by lia.
  rewrite fmap_app, concat_app, IH. simpl. rewrite app_nil_r.
  replace (Z.to_nat (Z.of_nat k * B)) with (k * Z.to_nat B)%nat by lia.
  rewrite take_take_drop. f_equal. lia.
Qed.

Lemma concat_checkpoint_batches B (rs : list Result) :
  0 < B → concat (checkpoint_batches B rs).*2 = rs.
Proof.
  intros HB. unfold checkpoint_batches.
  set (n := Z.of_nat (length rs)).
  assert (0 ≤ (n + B - 1) `div` B) as Hq by (apply Z.div_pos; lia).
  rewrite <- (Z2Nat.id _ Hq). rewrite concat_batches_upto by done.
  apply take_ge.
  pose proof (Z.div_mod (n + B - 1) B ltac:(lia)) as Hdm.
  pose proof (Z.mod_pos_bound (n + B - 1) B HB) as Hr. nia.
Qed.

Lemma datetime_now_inv w t w' :
  datetime_now w = (Returned t, w') → w' = advance w ∧ t = clock (advance w).
Proof. unfold datetime_now, time_time. by intros [= <- <-]. Qed.

Lemma collect_all_data_spec sample_df batch_size is_testing w results w' :
  collect_all_data sample_df batch_size is_testing w = (Returned results, w') →
  let B := effective_batch_size batch_size is_testing in
  B ≠ 0 ∧ sample_df ≠ [] ∧
  Forall2 tagged sample_df results ∧
  (0 < B → checkpoints w' = checkpoints w ++ checkpoint_batches B results).
Proof.
  intros H B. unfold collect_all_data in H. fold B in H.
  bind_inv H as start w1 Estart. apply datetime_now_inv in Estart as [-> ->].
  bind_inv H as p w2 Eloop.
  bind_inv H as r w3 Emod. apply py_mod_inv in Emod as (-> & HB & ->).
  bind_inv H as u w4 Esave.
  bind_inv H as end_time w5 Eend. apply datetime_now_inv in Eend as [-> ->].
  bind_inv H as u1 w6 E1. apply printed_quotient_inv in E1 as [-> Hn].
  bind_inv H as u2 w7 E2. apply printed_quotient_inv in E2 as [-> _].
  bind_inv H as u3 w8 E3. apply printed_quotient_inv in E3 as [-> _].
  injection H as <- <-.
  assert (checkpoints (advance w4) = checkpoints w4) as ->
    by (unfold advance; by destruct (delays w4)).
  assert (checkpoints (advance w) = checkpoints w) as Hw
    by (unfold advance; by destruct (delays w)).
  apply collect_rows_spec in Eloop as (rs & Hall & Htag & Hck); [| done].
  simpl in Hall. subst rs.
  split_and!; [done | | done |].
  - intros Heq. subst sample_df. apply Forall2_nil_inv_l in Htag.
    rewrite Htag in Hn. done.
  - intros Hpos. specialize (Hck (checkpoints w) Hpos).
    rewrite Hw in Hck. rewrite app_nil_r in Hck. specialize (Hck eq_refl).
    rewrite checkpoint_batches_tail by done. cbv zeta.
    destruct (negb _).
    + bind_inv Esave as q w9 Ediv. apply py_floordiv_inv in Ediv as (-> & _ & ->).
      apply save_incremental_progress_inv in Esave as [-> _].
      rewrite Hck. by rewrite <- app_assoc.
    + injection Esave as _ <-. by rewrite Hck, app_nil_r.
Qed.

(** C2.  When [collect_all_data] returns from a sample of [N > 0] rows
    with [batch_size > 0], it has written exactly [ceil(N / B)] checkpoints,
    numbered 1, 2, ... in this order, where [B] is the batch size in force
    ([batch_size], or [min(10, batch_size)] when testing); checkpoint [j + 1]
    holds the results from position [j * B] on, [B] of them or what is left,
    and the checkpoints put end to end are the results returned. *)
Theorem collect_checkpoints sample_df batch_size is_testing w results w' :
  sample_df ≠ [] →
  0 < batch_size →
  collect_all_data sample_df batch_size is_testing w = (Returned results, w') →
  let B := effective_batch_size batch_size is_testing in
  let count := (Z.of_nat (length sample_df) + B - 1) `div` B in
  ∃ batches,
    checkpoints w' = checkpoints w ++ batches ∧
    Z.of_nat (length batches) = count ∧
    batches.*1 = seqZ 1 count ∧
    (∀ j, 0 ≤ j < count →
       batches !! Z.to_nat j
       = Some (j + 1, take (Z.to_nat B) (drop (Z.to_nat (j * B)) results))) ∧
    concat batches.*2 = results.
Proof.
  intros Hne Hbs H B count.
  apply collect_all_data_spec in H as (_ & _ & Htag & Hck). fold B in Hck.
  assert (0 < B) as HB by (subst B; unfold effective_batch_size; destruct is_testing; lia).
  assert (length sample_df = length results) as Hlen by by eapply Forall2_length.
  assert (0 ≤ count) as Hcount by (apply Z.div_pos; lia).
  exists (checkpoint_batches B results).
  unfold checkpoint_batches, batches_upto. rewrite <- Hlen. fold count.
  split_and!.
  - rewrite (Hck HB). unfold checkpoint_batches, batches_upto. by rewrite <- Hlen.
  - rewrite length_fmap, length_seqZ. lia.
  - rewrite <- list_fmap_compose.
    transitivity (Z.add 1 <$> seqZ 0 count); [| apply (fmap_add_seqZ 1 0)].
    apply list_fmap_ext. intros i j _. simpl. lia.
  - intros j Hj. rewrite list_lookup_fmap.
    rewrite (proj2 (lookup_seqZ 0 count (Z.to_nat j) j)) by lia. done.
  - pose proof (concat_checkpoint_batches B results HB) as Hcat.
    unfold checkpoint_batches, batches_upto in Hcat. by rewrite <- Hlen in Hcat.
Qed.

Lemma collect_results_in_order sample_df batch_size is_testing w results w' :
  collect_all_data sample_df batch_size is_testing w = (Returned results, w') →
  Forall2 tagged sample_df results.
Proof. intros H. by apply collect_all_data_spec in H as (_ & _ & Htag & _). Qed.

(** ** The sampler *)

Lemma elem_of_drop_duplicates seen rows r :
  r ∈ drop_duplicates seen rows → r ∈ rows.
Proof.
  revert seen. induction rows as [|x rows IH]; intros seen; simpl; [done |].
  case_decide.
  - intros Hin. right. by eapply IH.
  - intros [->|Hin]%elem_of_cons; [left | right; by eapply IH].
Qed.

(** Every domain that is not already seen keeps a row, and it is the first
    row of that domain. *)
Lemma drop_duplicates_keeps_first seen rows r :
  r ∈ rows → row_domain r ∉ seen →
  ∃ r', r' ∈ drop_duplicates seen rows ∧ row_domain r' = row_domain r ∧
        ∃ l1 l2, rows = l1 ++ r' :: l2 ∧ ∀ x, x ∈ l1 → row_domain x ≠ row_domain r.
Proof.
  revert seen. induction rows as [|x rows IH]; intros seen Hin Hseen; [by apply elem_of_nil in Hin |].
  simpl. destruct (decide (row_domain x = row_domain r)) as [Heq|Hne].
  - rewrite decide_False by (by rewrite Heq).
    exists x. split_and!; [left | done |]. exists [], rows. split; [done |].
    intros y Hy. by apply elem_of_nil in Hy.
  - apply elem_of_cons in Hin as [->|Hin]; [done |].
    case_decide as Hx.
    + destruct (IH seen Hin Hseen) as (r' & Hr' & Hd & l1 & l2 & -> & Hl1).
      exists r'. split_and!; [done | done |]. exists (x :: l1), l2. split; [done |].
      intros y [->|Hy]%elem_of_cons; [done | by apply Hl1].
    + destruct (IH ({[row_domain x]} ∪ seen) Hin)
        as (r' & Hr' & Hd & l1 & l2 & -> & Hl1).
      { intros [Hy%elem_of_singleton | Hy]%elem_of_union; [congruence | done]. }
      exists r'. split_and!; [by right | done |]. exists (x :: l1), l2. split; [done |].
      intros y [->|Hy]%elem_of_cons; [done | by apply Hl1].
Qed.

Lemma elem_of_sort_values rows r : r ∈ sort_values rows ↔ r ∈ rows.
Proof. unfold sort_values. by rewrite merge_sort_Permutation. Qed.

Lemma elem_of_raptive_table urls r :
  r ∈ raptive_table urls → row_network r = Some "Raptive".
Proof.
  unfold raptive_table. intros (d & -> & _)%list_elem_of_fmap. done.
Qed.

Lemma elem_of_raptive_domains_set raptive_df d :
  d ∈ raptive_domains_set raptive_df ↔ ∃ r, r ∈ raptive_df ∧ row_domain r = d.
Proof.
  unfold raptive_domains_set. rewrite elem_of_list_to_set, list_elem_of_fmap. split.
  - intros (r & -> & Hr). eauto.
  - intros (r & Hr & <-). eauto.
Qed.

(** In the clean table a Raptive domain is tagged Raptive. *)
Lemma clean_dataset_trusted_tag urls rows r :
  r ∈ create_clean_domain_dataset urls rows →
  row_domain r ∈ raptive_domains_set (raptive_table urls) →
  row_network r = Some "Raptive".
Proof.
  unfold create_clean_domain_dataset.
  intros Hin Hdom. apply elem_of_sort_values, elem_of_drop_duplicates in Hin.
  apply elem_of_app in Hin as [Hin|Hin].
  - by eapply elem_of_raptive_table.
  - apply list_elem_of_filter in Hin as [Hnot _]. done.
Qed.

(** Every Raptive domain is in the clean table. *)
Lemma clean_dataset_keeps_trusted urls rows d :
  d ∈ raptive_domains_set (raptive_table urls) →
  mkRow d (Some "Raptive") ∈ create_clean_domain_dataset urls rows.
Proof.
  intros Hd. pose proof Hd as Hd'.
  apply elem_of_raptive_domains_set in Hd' as (r & Hr & Hrd).
  unfold create_clean_domain_dataset. apply elem_of_sort_values.
  destruct (drop_duplicates_keeps_first ∅
              (raptive_table urls ++
               filter (λ r, row_domain r ∉ raptive_domains_set (raptive_table urls))
                      (competitor_table rows)) r)
    as (r' & Hr' & Hdom & _); [apply elem_of_app; by left | set_solver |].
  assert (row_network r' = Some "Raptive") as Hnet.
  { apply elem_of_drop_duplicates, elem_of_app in Hr' as Hr''.
    destruct Hr'' as [Hin|Hin]; [by eapply elem_of_raptive_table |].
    apply list_elem_of_filter in Hin as [Hnot _]. exfalso. apply Hnot.
    by rewrite Hdom, Hrd. }
  destruct r' as [d' n']. simpl in *. by rewrite <- Hrd, <- Hdom, <- Hnet.
Qed.

Section SamplerProperties.

Variable choose : nat → nat → list nat.

Lemma df_sample_spec n df w o w' :
  df_sample choose n df w = (o, w') →
  w' = w ∧ ∀ sample, o = Returned sample → sample ⊆ df.
Proof.
  unfold df_sample. case_match.
  - intros [= <- <-]. by split.
  - intros [= <- <-]. split; [done |]. intros sample [= <-] r.
    intros (i & _ & Hi)%list_elem_of_omap. by eapply list_elem_of_lookup_2.
Qed.

Lemma sample_network_spec clean_df sample_size network w o w' :
  sample_network choose clean_df sample_size network w = (o, w') →
  w' = w ∧ ∀ sample, o = Returned sample → sample ⊆ clean_df.
Proof.
  unfold sample_network.
  assert (filter (λ r, Is_true (network_is network r)) clean_df ⊆ clean_df) as Hsub.
  { intros r Hr. by apply list_elem_of_filter in Hr as [_ Hr]. }
  repeat case_match.
  - intros [= <- <-]. split; [done |]. by intros sample [= <-].
  - intros [= <- <-]. split; [done |]. by intros sample [= <-].
  - intros Hs. apply df_sample_spec in Hs as [-> Hs]. split; [done |].
    intros sample Ho. etrans; [by apply Hs | done].
Qed.

Lemma sample_networks_spec clean_df sample_size networks : ∀ w o w',
  sample_networks choose clean_df sample_size networks w = (o, w') →
  w' = w ∧ ∀ dfs, o = Returned dfs → concat dfs ⊆ clean_df.
Proof.
  induction networks as [|network networks IH]; intros w o w'; simpl.
  - intros [= <- <-]. split; [done |]. intros dfs [= <-]. simpl. set_solver.
  - unfold bind at 1.
    destruct (sample_network _ _ _ _ w) as [o1 w1] eqn:E1.
    apply sample_network_spec in E1 as [-> H1].
    destruct o1 as [df|e]; [| intros [= <- <-]; by split].
    unfold bind at 1.
    destruct (sample_networks _ _ _ _ w) as [o2 w2] eqn:E2.
    apply IH in E2 as [-> H2].
    destruct o2 as [dfs|e]; [| intros [= <- <-]; by split].
    intros [= <- <-]. split; [done |]. intros ? [= <-]. simpl.
    intros r [Hr|Hr]%elem_of_app; [by eapply H1 | by eapply H2].
Qed.

Lemma create_sample_dataset_spec clean_df sample_size w o w' :
  create_sample_dataset choose clean_df sample_size w = (o, w') →
  match o with
  | Returned sample => w' = with_sample_pickle sample w ∧ sample ⊆ clean_df
  | Raised _ => w' = w
  end.
Proof.
  unfold create_sample_dataset. unfold bind at 1.
  destruct (sample_networks _ _ _ _ w) as [o1 w1] eqn:E1.
  apply sample_networks_spec in E1 as [-> H1].
  destruct o1 as [dfs|e]; [| by intros [= <- <-]].
  specialize (H1 dfs eq_refl).
  unfold bind at 1, pd_concat.
  destruct dfs as [|df dfs]; [by intros [= <- <-] |].
  unfold ret at 1. cbv beta iota.
  intros [= <- <-]. by split.
Qed.

End SamplerProperties.

(** C8.  In the clean dataset, and so in every sample drawn from it, a
    domain of the normalized Raptive set is tagged [Raptive] and nothing
    else; and every domain of that set is in the clean dataset with this
    tag. *)
Theorem trusted_precedence choose urls rows sample_size w sample w' :
  create_sample_dataset choose (create_clean_domain_dataset urls rows) sample_size w
  = (Returned sample, w') →
  let trusted := raptive_domains_set (raptive_table urls) in
  (∀ r, r ∈ create_clean_domain_dataset urls rows →
        row_domain r ∈ trusted → row_network r = Some "Raptive") ∧
  (∀ d, d ∈ trusted →
        mkRow d (Some "Raptive") ∈ create_clean_domain_dataset urls rows) ∧
  (∀ r, r ∈ sample → row_domain r ∈ trusted → row_network r = Some "Raptive").
Proof.
  intros H trusted. apply create_sample_dataset_spec in H as [_ Hsub].
  split_and!.
  - intros r. apply clean_dataset_trusted_tag.
  - intros d. apply clean_dataset_keeps_trusted.
  - intros r Hr Hd. eapply clean_dataset_trusted_tag; [by apply Hsub | done].
Qed.

(** C9.  What [create_sample_dataset] has done when it returns, besides
    returning the sample: it has created the directory [pickles] and written
    the sample to [pickles/sample_domains.pkl], in place of a file of that
    name; nothing else has changed. *)
Theorem create_sample_dataset_effect choose clean_df sample_size w sample w' :
  create_sample_dataset choose clean_df sample_size w = (Returned sample, w') →
  dirs w' = {["pickles"]} ∪ dirs w ∧
  pickles w' = <["pickles/sample_domains.pkl" := sample]> (pickles w) ∧
  clock w' = clock w ∧ delays w' = delays w ∧ server w' = server w ∧
  http_log w' = http_log w ∧ sleep_log w' = sleep_log w ∧
  limiter w' = limiter w ∧ issued w' = issued w ∧ checkpoints w' = checkpoints w.
Proof.
  intros H. apply create_sample_dataset_spec in H as [-> _]. by split_and!.
Qed.

Lemma returns_inv {A} (r : Outcome A * World) :
  returns r = true → ∃ a w', r = (Returned a, w').
Proof. destruct r as [[a|e] w']; [eauto | discriminate]. Qed.

Lemma create_sample_dataset_writes :
  (create_sample_dataset first_rows one_row 500 (world_at 0 [] [])).2 ≠ world_at 0 [] [].
Proof.
  intros H.
  apply (f_equal (λ w, pickles w !! "pickles/sample_domains.pkl")) in H.
  vm_compute in H. discriminate H.
Qed.

Lemma one_row_sampled :
  returns (create_sample_dataset first_rows one_row 500 (world_at 0 [] [])) = true.
Proof. vm_compute. reflexivity. Qed.

Lemma create_sample_dataset_effect_witness :
  ∃ sample w',
    create_sample_dataset first_rows one_row 500 (world_at 0 [] []) = (Returned sample, w') ∧
    dirs w' = {["pickles"]} ∪ dirs (world_at 0 [] []) ∧
    pickles w' = <["pickles/sample_domains.pkl" := sample]> (pickles (world_at 0 [] [])).
Proof.
  destruct (returns_inv _ one_row_sampled) as (sample & w' & E).
  exists sample, w'. split; [exact E |].
  destruct (create_sample_dataset_effect first_rows one_row 500 _ sample w' E)
    as (Hdirs & Hpickles & _).
  split; [exact Hdirs | exact Hpickles].
Defined.

Lemma fetch_404_error_text :
  ∃ res,
    (fetch_domain_metrics "a.com" DEFAULT_MAX_RETRIES
       (world_at 1000000 [] [Answer not_found_404])).1 = Returned res ∧
    res !! "api_error" = Some (VStr "Domain not found (404)") ∧
    res !! "api_error" ≠ Some (VStr "domain not found").
Proof.
  exists (failure_record "a.com" "Domain not found (404)" 1000000).
  split; [vm_compute; reflexivity |]. split; [vm_compute; reflexivity |].
  vm_compute. discriminate.
Qed.

Lemma fetch_404_no_retry_witness :
  ∃ res w',
    fetch_domain_metrics "a.com" 3 (world_at 1000000 [] [Answer not_found_404])
    = (Returned res, w') ∧
    http_log w' = [] ++ ["a.com"] ∧
    res !! "api_error" = Some (VStr "Domain not found (404)").
Proof.
  destruct (fetch_404_no_retry "a.com" 3 (world_at 1000000 [] [Answer not_found_404])
              not_found_404 [] ltac:(lia) eq_refl eq_refl)
    as (res & w' & H & Hlog & _ & _ & _ & _ & Herr).
  exists res, w'. by split_and!.
Defined.






Lemma error_500_fetched :
  returns (fetch_domain_metrics "a.com" 3 (world_at 1000000 [] [Answer error_500])) = true.
Proof. vm_compute. reflexivity. Qed.

Lemma fetch_returns_well_shaped_witness :
  ∃ res w',
    fetch_domain_metrics "a.com" 3 (world_at 1000000 [] [Answer error_500])
    = (Returned res, w') ∧
    is_Some (res !! "api_error").
Proof.
  destruct (returns_inv _ error_500_fetched) as (res & w' & E).
  exists res, w'. split; [exact E |].
  exact (proj1 (proj2 (proj2 (fetch_returns_well_shaped "a.com" 3 _ res w' E)))).
Defined.

Lemma three_rows_collected :
  returns (collect_all_data three_rows 2 false
             (world_at 1000000 (replicate 40 1%N) three_replies)) = true.
Proof. vm_compute. reflexivity. Qed.

Lemma collect_checkpoints_witness :
  ∃ results w' batches,
    collect_all_data three_rows 2 false (world_at 1000000 (replicate 40 1%N) three_replies)
    = (Returned results, w') ∧
    checkpoints w' = [] ++ batches ∧
    Z.of_nat (length batches) = 2 ∧
    concat batches.*2 = results.
Proof.
  destruct (returns_inv _ three_rows_collected) as (results & w' & E).
  destruct (collect_checkpoints three_rows 2 false _ results w' ltac:(done) ltac:(lia) E)
    as (batches & Hck & Hlen & _ & _ & Hcat).
  exists results, w', batches. by split_and!.
Defined.

Lemma trusted_sampled :
  returns (create_sample_dataset first_rows
             (create_clean_domain_dataset trusted_urls competitor_rows) 500
             (world_at 0 [] [])) = true.
Proof. vm_compute. reflexivity. Qed.

Lemma trusted_precedence_witness :
  ∃ sample w',
    create_sample_dataset first_rows
      (create_clean_domain_dataset trusted_urls competitor_rows) 500 (world_at 0 [] [])
    = (Returned sample, w') ∧
    ∀ r, r ∈ sample →
         row_domain r ∈ raptive_domains_set (raptive_table trusted_urls) →
         row_network r = Some "Raptive".
Proof.
  destruct (returns_inv _ trusted_sampled) as (sample & w' & E).
  exists sample, w'. split; [exact E |].
  exact (proj2 (proj2 (trusted_precedence first_rows _ _ 500 _ sample w' E))).
Defined.

Lemma evict_spec now q :
  ∃ old, q = old ++ evict now q ∧ ∀ x, x ∈ old → x + 60 * SECOND ≤ now.
Proof.
  induction q as [|t q (old & Hq & Hold)]; simpl.
  - exists []. split; [done |]. by intros x ?%elem_of_nil.
  - destruct (Z.leb_spec (60 * SECOND) (now - t)).
    + exists (t :: old). split; [simpl; by f_equal |].
      intros x [->|Hx]%elem_of_cons; [lia | by apply Hold].
    + exists []. split; [done |]. by intros x ?%elem_of_nil.
Qed.

Lemma evict_length now q : (length (evict now q) ≤ length q)%nat.
Proof.
  induction q as [|t q IH]; simpl; [done |].
  destruct (60 * SECOND <=? now - t); simpl; lia.
Qed.

Lemma advance_eta w :
  ∃ d ds, 0 ≤ d ∧
    advance w = mkWorld (clock w + d) ds (server w) (http_log w) (sleep_log w)
                        (limiter w) (issued w) (checkpoints w) (dirs w) (pickles w).
Proof.
  unfold advance. destruct w as [c ds sv hl sl lim iss ck dr pk]; simpl.
  destruct ds as [|d ds']; [exists 0, [] | exists (Z.of_N d), ds']; split; try lia; try done.
  by rewrite Z.add_0_r.
Qed.

Lemma date_of_mono a b : a ≤ b → date_of a ≤ date_of b.
Proof. intros H. unfold date_of, DAY, SECOND. apply Z.div_le_mono; lia. Qed.


Ltac run_py :=
  cbv beta iota zeta delta
    [bind ret raise clock delays server http_log sleep_log limiter issued checkpoints
     dirs pickles _request_times _requests_today _current_day].

Ltac absurd_branch :=
  exfalso; unfold REQUESTS_PER_DAY, REQUESTS_PER_MINUTE in *; cbn [length] in *; lia.

Ltac clock_read :=
  match goal with
  | |- context [advance ?w] =>
      let d := fresh "d" in
      let ds := fresh "ds" in
      let Hd := fresh "Hd" in
      let E := fresh "E" in
      destruct (advance_eta w) as (d & ds & Hd & E); rewrite !E; clear E; run_py
  end.

Lemma evict_front now now2 q z l :
  evict now q = z :: l → now ≤ now2 → 60 * SECOND ≤ now2 - z →
  ∃ old, q = old ++ evict now2 (z :: l) ∧
    (∀ x, x ∈ old → x + 60 * SECOND ≤ now2) ∧
    (length (evict now2 (z :: l)) < length q)%nat.
Proof.
  intros Hq Hle Hz.
  destruct (evict_spec now q) as (old1 & Hq1 & Hold1). rewrite Hq in Hq1.
  destruct (evict_spec now2 l) as (old2 & Hl & Hold2).
  assert (evict now2 (z :: l) = evict now2 l) as ->.
  { simpl. by destruct (Z.leb_spec (60 * SECOND) (now2 - z)); [| lia]. }
  exists (old1 ++ z :: old2). split_and!.
  - rewrite <- app_assoc. simpl. by rewrite <- Hl.
  - intros x [Hx|[->|Hx]%elem_of_cons]%elem_of_app; [apply Hold1 in Hx | | apply Hold2 in Hx]; lia.
  - pose proof (f_equal length Hl) as HL. rewrite length_app in HL.
    rewrite Hq1, length_app. simpl. lia.
Qed.

Lemma respect_rate_limits_step w :
  ∃ w', respect_rate_limits w = (Returned tt, w') ∧
    issued w' = issued w ++ [clock w'] ∧
    clock w ≤ clock w' ∧
    server w' = server w ∧ http_log w' = http_log w ∧
    checkpoints w' = checkpoints w ∧ dirs w' = dirs w ∧ pickles w' = pickles w ∧
    (∃ rl, sleep_log w' = sleep_log w ++ rl ∧ Forall (λ e, e.1 = RateLimitWait) rl) ∧
    (same_epoch w w' ∨ new_epoch w w').
Proof.
  destruct w as [c ds sv hl sl [q n day] iss ck dr pk].
  unfold respect_rate_limits, datetime_now_date, datetime_now, time_time, reset_day,
    evict_old, get_limiter, set_limiter, record_request, time_sleep.
  repeat first
    [ progress run_py
    | clock_read
    | case_bool_decide
    | match goal with
      | |- context [if ?b <=? ?c then _ else _] =>
          destruct (Z.leb_spec b c); try absurd_branch
      | |- context [if ?b <? ?c then _ else _] =>
          destruct (Z.ltb_spec b c); try absurd_branch
      | |- context [match evict ?a ?b with _ => _ end] =>
          destruct (evict a b) eqn:?; try absurd_branch
      end ].
  all: try (eexists; split; [reflexivity |]; run_py).
  all: split_and!; try done; try lia.
  all: try by (exists []; rewrite app_nil_r; split; [done | constructor]).
  all: try by (eexists [_]; split; [done | repeat constructor]).
  - right. unfold new_epoch. run_py. simpl. split_and!; [done | done | apply date_of_mono; lia |].
    exists (c + d0 + d). split; [lia | by left].
  - right. unfold new_epoch. run_py. simpl. split_and!; [done | done | apply date_of_mono; lia |].
    exists (c + d0 + d). split; [lia | right; lia].
  - left. unfold same_epoch. run_py. split_and!; [done | done | lia |].
    destruct (evict_front (c + d0) (c + d0 + d + (60 * SECOND - (c + d0 - z)) + d2) q z l)
      as (old & Hq & Hold & Hlen); [done | lia | lia |].
    eexists old, _. split_and!; [exact Hq | | done | unfold REQUESTS_PER_MINUTE; lia].
    intros x Hx. apply Hold in Hx. lia.
  - left. unfold same_epoch. run_py. split_and!; [done | done | lia |].
    destruct (evict_front (c + d0) (c + d0 + d + d2) q z l)
      as (old & Hq & Hold & Hlen); [done | lia | lia |].
    eexists old, _. split_and!; [exact Hq | | done | unfold REQUESTS_PER_MINUTE; lia].
    intros x Hx. apply Hold in Hx. lia.
  - left. unfold same_epoch. run_py. split_and!; [done | done | lia |].
    destruct (evict_spec (c + d0) q) as (old & Hq & Hold).
    exists old, (evict (c + d0) q). split_and!; [done | | done | lia].
    intros x Hx. apply Hold in Hx. lia.
Qed.

Lemma outside_refl w : outside w w.
Proof. by split. Qed.

Lemma outside_trans w1 w2 w3 : outside w1 w2 → outside w2 w3 → outside w1 w3.
Proof. intros [] []. split; try congruence. lia. Qed.

Lemma requests_get_frame domain w o w' :
  requests_get domain w = (o, w') →
  limiter w' = limiter w ∧ issued w' = issued w ∧ clock w' = clock w ∧
  http_log w' = http_log w ++ [domain].
Proof.
  unfold requests_get. destruct (server w) as [|[r|msg] rest]; by intros [= _ <-].
Qed.

Lemma run_trans t1 t2 w1 w2 w3 : run t1 w1 w2 → run t2 w2 w3 → run (t1 ++ t2) w1 w3.
Proof.
  induction 1 as [| ? ? ? ? Hout _ IH | ? ? ? ? Hacq _ IH | ? ? ? ? ? ? Hreq _ IH];
    intros H; simpl; [done | | |].
  - eapply run_outside; [exact Hout | by apply IH].
  - eapply run_acquire; [exact Hacq | by apply IH].
  - eapply run_request; [exact Hreq | by apply IH].
Qed.


Lemma run_logs tr w w' :
  run tr w w' →
  http_log w' = http_log w ++ requests_of tr ∧
  ∃ ts, issued w' = issued w ++ ts ∧ length ts = acquisitions tr.
Proof.
  induction 1 as [| ? ? ? ? [_ Hi Hh _] _ [IH1 (ts & IH2 & IH3)]
                  | ? w1 w2 ? Hacq _ [IH1 (ts & IH2 & IH3)]
                  | ? ? ? ? ? ? Hreq _ [IH1 (ts & IH2 & IH3)]].
  - split; [by rewrite app_nil_r | exists []; by rewrite app_nil_r].
  - split; [by rewrite IH1, Hh | exists ts; by rewrite IH2, Hi].
  - destruct (respect_rate_limits_step w1) as (w2' & E & Hi & _ & _ & Hh & _).
    rewrite E in Hacq. injection Hacq as ->.
    split; [by rewrite IH1, Hh |].
    exists (clock w2 :: ts). split; [| unfold acquisitions in *; simpl; by rewrite IH3].
    rewrite IH2, Hi, <- app_assoc. done.
  - apply requests_get_frame in Hreq as (_ & Hi & _ & Hh).
    split; [rewrite IH1, Hh, <- app_assoc; done |].
    exists ts. by rewrite IH2, Hi.
Qed.








Lemma apart_ret {A} (a : A) : apart (ret a).
Proof. intros w o w' [= _ <-]. apply outside_refl. Qed.

Lemma apart_raise {A} e : apart (@raise A e).
Proof. intros w o w' [= _ <-]. apply outside_refl. Qed.

Lemma apart_bind {A B} (m : M A) (k : A → M B) :
  apart m → (∀ a, apart (k a)) → apart (bind m k).
Proof.
  intros Hm Hk w o w'. unfold bind. destruct (m w) as [[a|e] w1] eqn:E.
  - intros H. eapply outside_trans; [by eapply Hm | by eapply Hk].
  - intros [= _ <-]. by eapply Hm.
Qed.

Lemma outside_advance w : outside w (advance w).
Proof.
  unfold advance. destruct (delays w); [apply outside_refl |].
  split; simpl; [done | done | done | lia].
Qed.

Lemma apart_time_time : apart time_time.
Proof. intros w o w' [= _ <-]. apply outside_advance. Qed.

Lemma apart_datetime_now : apart datetime_now.
Proof. apply apart_time_time. Qed.

Lemma apart_time_sleep why d : apart (time_sleep why d).
Proof.
  intros w o w'. unfold time_sleep. destruct (Z.ltb_spec d 0); intros [= _ <-].
  - apply outside_refl.
  - split; simpl; [done | done | done | lia].
Qed.

Lemma apart_os_makedirs d : apart (os_makedirs d).
Proof. intros w o w' [= _ <-]. by split. Qed.

Lemma apart_write_batch results batch_num : apart (write_batch results batch_num).
Proof. intros w o w' [= _ <-]. by split. Qed.

Lemma apart_to_pickle rows path : apart (to_pickle rows path).
Proof. intros w o w' [= _ <-]. by split. Qed.

Lemma apart_getitem r key : apart (getitem r key).
Proof. unfold getitem. destruct (r !! key); [apply apart_ret | apply apart_raise]. Qed.

Lemma apart_py_mod a b : apart (py_mod a b).
Proof. unfold py_mod. destruct (b =? 0); [apply apart_raise | apply apart_ret]. Qed.

Lemma apart_py_floordiv a b : apart (py_floordiv a b).
Proof. unfold py_floordiv. destruct (b =? 0); [apply apart_raise | apply apart_ret]. Qed.

Lemma apart_printed_quotient b : apart (printed_quotient b).
Proof. unfold printed_quotient. destruct (b =? 0); [apply apart_raise | apply apart_ret]. Qed.

Lemma apart_int_of_text s : apart (int_of_text s).
Proof.
  unfold int_of_text.
  destruct (py_literal s); [apply apart_ret | apply apart_raise | apply apart_raise].
Qed.

Lemma apart_response_json r : apart (response_json r).
Proof.
  unfold response_json. destruct (json r); [apply apart_ret | apply apart_ret | apply apart_raise].
Qed.

Lemma apart_data_get data key : apart (data_get data key).
Proof. unfold data_get. destruct data; [apply apart_ret | apply apart_raise]. Qed.

Create HintDb apart.
#[local] Hint Resolve apart_ret apart_raise apart_time_time apart_datetime_now apart_time_sleep
  apart_os_makedirs apart_write_batch apart_to_pickle apart_getitem
  apart_py_mod apart_py_floordiv apart_printed_quotient apart_int_of_text
  apart_response_json apart_data_get : apart.

Ltac apart_step :=
  first [ apply apart_bind; [| intros ?] | case_match | progress eauto with apart ].

Lemma apart_get_fields data keys acc : apart (get_fields data keys acc).
Proof.
  revert acc. induction keys as [|k keys IH]; intros acc; simpl; [apply apart_ret |].
  apply apart_bind; [apply apart_data_get | intros v; apply IH].
Qed.

Lemma apart_failure domain err : apart (failure domain err).
Proof. unfold failure. repeat apart_step. Qed.

#[local] Hint Resolve apart_get_fields apart_failure : apart.

Lemma apart_handle_response domain r : apart (handle_response domain r).
Proof. unfold handle_response. repeat apart_step. Qed.

Lemma apart_on_request_exception domain max_retries attempt msg :
  apart (on_request_exception domain max_retries attempt msg).
Proof. unfold on_request_exception. repeat apart_step. Qed.

Lemma apart_save_incremental_progress results batch_num :
  apart (save_incremental_progress results batch_num).
Proof. unfold save_incremental_progress. repeat apart_step. Qed.

#[local] Hint Resolve apart_handle_response apart_on_request_exception
  apart_save_incremental_progress : apart.

Lemma run_apart {A} (m : M A) w o w' : apart m → m w = (o, w') → run [] w w'.
Proof. intros Hm E. eapply run_outside; [by eapply Hm | apply run_done]. Qed.

(** One attempt: through the limiter, then one request. *)
Lemma attempt_body_run domain max_retries attempt w o w' :
  attempt_body domain max_retries attempt w = (o, w') →
  run [Acquire; Request domain] w w'.
Proof.
  unfold attempt_body, try_except_request, attempt_request.
  destruct (respect_rate_limits_step w) as (w0 & E & _).
  rewrite (bind_returned _ _ _ _ _ E). unfold bind at 1.
  destruct (requests_get domain w0) as [o1 w1] eqn:E1.
  assert (∀ w2, outside w1 w2 → run [Acquire; Request domain] w w2) as Hrun.
  { intros w2 Hout. eapply run_acquire; [exact E |]. eapply run_request; [exact E1 |].
    eapply run_outside; [exact Hout | apply run_done]. }
  destruct o1 as [r|e].
  - destruct (handle_response domain r w1) as [o2 w2] eqn:E2.
    apply apart_handle_response in E2.
    destruct o2 as [s|[]]; try (intros [= <- <-]; by apply Hrun).
    intros H. apply apart_on_request_exception in H.
    apply Hrun. by eapply outside_trans.
  - destruct e; try (intros [= <- <-]; apply Hrun, outside_refl).
    intros H. apply apart_on_request_exception in H. by apply Hrun.
Qed.

Lemma attempts_trace_S domain k :
  attempts_trace domain (S k) = [Acquire; Request domain] ++ attempts_trace domain k.
Proof. done. Qed.

Lemma fetch_attempts_run domain max_retries attempts : ∀ w o w',
  fetch_attempts domain max_retries attempts w = (o, w') →
  ∃ k, (k ≤ length attempts)%nat ∧ (attempts ≠ [] → (1 ≤ k)%nat) ∧
       run (attempts_trace domain k) w w'.
Proof.
  induction attempts as [|a rest IH]; intros w o w'; simpl.
  - intros H. exists 0%nat. split_and!; [done | done |].
    by eapply (run_apart _ _ _ _ (apart_failure _ _)).
  - unfold bind at 1.
    destruct (attempt_body domain max_retries a w) as [o1 w1] eqn:E1.
    apply attempt_body_run in E1.
    destruct o1 as [[res|]|e].
    + intros [= <- <-]. exists 1%nat. split_and!; [lia | done |].
      rewrite attempts_trace_S. simpl. done.
    + intros H. apply IH in H as (k & Hk & _ & Hrun).
      exists (S k). split_and!; [lia | lia |].
      rewrite attempts_trace_S. by eapply run_trans.
    + intros [= <- <-]. exists 1%nat. split_and!; [lia | done |].
      rewrite attempts_trace_S. simpl. done.
Qed.

Lemma collect_row_run total batch_size start_time i row p w o w' :
  collect_row total batch_size start_time i row p w = (o, w') →
  ∃ k, (1 ≤ k ≤ 3)%nat ∧ run (attempts_trace (row_domain row) k) w w'.
Proof.
  unfold collect_row. unfold bind at 1.
  destruct (fetch_domain_metrics (row_domain row) DEFAULT_MAX_RETRIES w) as [o1 w1] eqn:E1.
  apply fetch_attempts_run in E1 as (k & Hk & Hk1 & Hrun).
  specialize (Hk1 ltac:(done)). change (length (range DEFAULT_MAX_RETRIES)) with 3%nat in Hk.
  intros H. exists k. split; [lia |].
  destruct o1 as [res|e]; [| by injection H as <- <-].
  match type of H with
  | ?m w1 = _ => assert (apart m) as Hap by repeat apart_step
  end.
  apply Hap in H. rewrite <- (app_nil_r (attempts_trace _ _)).
  eapply run_trans; [exact Hrun |]. eapply run_outside; [exact H | apply run_done].
Qed.

Lemma rows_trace_nil rows : rows_trace rows [] = [].
Proof. by destruct rows. Qed.

Lemma collect_rows_run total batch_size start_time rows : ∀ i p w o w',
  collect_rows total batch_size start_time i rows p w = (o, w') →
  ∃ ks, (length ks ≤ length rows)%nat ∧ Forall (λ k, (1 ≤ k ≤ 3)%nat) ks ∧
    run (rows_trace rows ks) w w' ∧
    (∀ p', o = Returned p' → length ks = length rows).
Proof.
  induction rows as [|row rest IH]; intros i p w o w'; simpl.
  - intros [= <- <-]. exists []. split_and!; [done | done | apply run_done | done].
  - unfold bind at 1.
    destruct (collect_row total batch_size start_time i row p w) as [o1 w1] eqn:E1.
    apply collect_row_run in E1 as (k & Hk & Hrun).
    destruct o1 as [p1|e].
    + intros H. apply IH in H as (ks & Hlen & Hall & Hrun' & Hret).
      exists (k :: ks). split_and!; [simpl; lia | by constructor | |].
      * unfold rows_trace. simpl. by eapply run_trans.
      * intros p' Hp'. simpl. by rewrite (Hret p' Hp').
    + intros [= <- <-]. exists [k].
      split_and!; [simpl; lia | constructor; [exact Hk | constructor] | | done].
      unfold rows_trace. destruct rest; simpl; by rewrite app_nil_r.
Qed.

Lemma collect_all_data_run sample_df batch_size is_testing w o w' :
  collect_all_data sample_df batch_size is_testing w = (o, w') →
  ∃ ks, (length ks ≤ length sample_df)%nat ∧ Forall (λ k, (1 ≤ k ≤ 3)%nat) ks ∧
    run (rows_trace sample_df ks) w w' ∧
    (∀ results, o = Returned results → length ks = length sample_df).
Proof.
  unfold collect_all_data. cbv zeta. unfold bind at 1.
  destruct (datetime_now w) as [o0 w0] eqn:E0.
  pose proof (apart_datetime_now _ _ _ E0) as Hout0.
  destruct o0 as [start_time|e].
  2: { intros [= <- <-]. exists []. split_and!; [simpl; lia | done | | done].
       rewrite rows_trace_nil. eapply run_outside; [exact Hout0 | apply run_done]. }
  unfold bind at 1.
  destruct (collect_rows _ _ _ _ _ _ w0) as [o1 w1] eqn:E1.
  apply collect_rows_run in E1 as (ks & Hlen & Hall & Hrun & Hret).
  intros Htail. exists ks.
  assert (∀ w2, outside w1 w2 → run (rows_trace sample_df ks) w w2) as Hgo.
  { intros w2 Hout. eapply run_outside; [exact Hout0 |].
    rewrite <- (app_nil_r (rows_trace _ _)).
    eapply run_trans; [exact Hrun |]. eapply run_outside; [exact Hout | apply run_done]. }
  destruct o1 as [p|e].
  - match type of Htail with
    | ?m w1 = _ => assert (apart m) as Hap by repeat apart_step
    end.
    apply Hap in Htail. split_and!; [done | done | by apply Hgo |].
    intros results _. by eapply Hret.
  - injection Htail as <- <-. split_and!; [done | done | apply Hgo, outside_refl | done].
Qed.

Lemma requests_of_app t1 t2 : requests_of (t1 ++ t2) = requests_of t1 ++ requests_of t2.
Proof. unfold requests_of. apply omap_app. Qed.

Lemma acquisitions_app t1 t2 : acquisitions (t1 ++ t2) = (acquisitions t1 + acquisitions t2)%nat.
Proof. unfold acquisitions. by rewrite omap_app, length_app. Qed.

Lemma requests_of_attempts domain k : requests_of (attempts_trace domain k) = replicate k domain.
Proof.
  induction k as [|k IH]; [done |].
  rewrite attempts_trace_S, requests_of_app, IH. done.
Qed.

Lemma acquisitions_attempts domain k : acquisitions (attempts_trace domain k) = k.
Proof.
  induction k as [|k IH]; [done |].
  rewrite attempts_trace_S, acquisitions_app, IH. done.
Qed.

Lemma requests_of_rows rows : ∀ ks,
  requests_of (rows_trace rows ks)
  = concat (zip_with (λ row k, replicate k (row_domain row)) rows ks).
Proof.
  induction rows as [|row rows IH]; intros [|k ks]; try done.
  unfold rows_trace in *. simpl. by rewrite requests_of_app, requests_of_attempts, IH.
Qed.

Lemma acquisitions_rows rows : ∀ ks,
  length ks = length rows → acquisitions (rows_trace rows ks) = sum_list ks.
Proof.
  induction rows as [|row rows IH]; intros [|k ks] Hlen; try done.
  unfold rows_trace in *. simpl. rewrite acquisitions_app, acquisitions_attempts.
  rewrite IH by (simpl in Hlen; lia). done.
Qed.


(** X1.  A call of [respect_rate_limits] always returns: it never raises
    (not even [IndexError] on the deque, nor [ValueError] on a sleep).  It
    records exactly one timestamp, the time at which it returns, sends
    nothing and writes no file; the daily counter it leaves is at most
    5000, and a deque of at most 45 timestamps stays one. *)
Theorem respect_rate_limits_returns w :
  ∃ w', respect_rate_limits w = (Returned tt, w') ∧
    issued w' = issued w ++ [clock w'] ∧
    clock w ≤ clock w' ∧
    http_log w' = http_log w ∧ server w' = server w ∧
    checkpoints w' = checkpoints w ∧ dirs w' = dirs w ∧ pickles w' = pickles w ∧
    _requests_today (limiter w') ≤ REQUESTS_PER_DAY ∧
    (Z.of_nat (length (_request_times (limiter w))) ≤ REQUESTS_PER_MINUTE →
     Z.of_nat (length (_request_times (limiter w'))) ≤ REQUESTS_PER_MINUTE).
Proof.
  destruct (respect_rate_limits_step w)
    as (w' & E & Hi & Hc & Hs & Hh & Hck & Hd & Hp & _ & Hep).
  exists w'. split_and!; try done.
  - destruct Hep as [(_ & -> & Hlt & _)|(_ & -> & _)]; unfold REQUESTS_PER_DAY in *; lia.
  - intros Hlen.
    destruct Hep as [(_ & _ & _ & old & q2 & _ & _ & -> & Hq2)|(-> & _)].
    + rewrite length_app. simpl. specialize (Hq2 Hlen). lia.
    + simpl. unfold REQUESTS_PER_MINUTE. lia.
Qed.


(** X4.  Whatever the server does, [fetch_domain_metrics] goes through the
    rate limiter once before every request it sends, and sends nothing
    else: a fetch is [k] rounds of one [respect_rate_limits] followed by one
    request for the domain, with [k] at most [max_retries], and at least 1
    when [max_retries] is positive. *)
Theorem fetch_paces_requests domain max_retries w o w' :
  fetch_domain_metrics domain max_retries w = (o, w') →
  ∃ k, Z.of_nat k ≤ Z.max 0 max_retries ∧ (0 < max_retries → (1 ≤ k)%nat) ∧
    run (attempts_trace domain k) w w' ∧
    http_log w' = http_log w ++ replicate k domain ∧
    length (issued w') = (length (issued w) + k)%nat.
Proof.
  intros E. apply fetch_attempts_run in E as (k & Hk & Hk1 & Hrun).
  unfold range in *. rewrite length_seqZ in Hk.
  exists k. split_and!; [lia | | done | |].
  - intros Hpos. apply Hk1. rewrite seqZ_cons by done. done.
  - destruct (run_logs _ _ _ Hrun) as [-> _]. by rewrite requests_of_attempts.
  - destruct (run_logs _ _ _ Hrun) as [_ (ts & -> & Hts)].
    by rewrite length_app, Hts, acquisitions_attempts.
Qed.

(** X5.  A collection run that returns has requested the sampled domains
    in the order of the sample, each at least once and at most three times
    in a row, and nothing else; before every request it went through the
    rate limiter once. *)
Theorem collect_requests_in_order sample_df batch_size is_testing w results w' :
  collect_all_data sample_df batch_size is_testing w = (Returned results, w') →
  ∃ ks, length ks = length sample_df ∧ Forall (λ k, (1 ≤ k ≤ 3)%nat) ks ∧
    run (rows_trace sample_df ks) w w' ∧
    http_log w' = http_log w
                  ++ concat (zip_with (λ row k, replicate k (row_domain row)) sample_df ks) ∧
    length (issued w') = (length (issued w) + sum_list ks)%nat.
Proof.
  intros E. apply collect_all_data_run in E as (ks & _ & Hall & Hrun & Hret).
  specialize (Hret results eq_refl).
  exists ks. split_and!; [done | done | done | |].
  - destruct (run_logs _ _ _ Hrun) as [-> _]. by rewrite requests_of_rows.
  - destruct (run_logs _ _ _ Hrun) as [_ (ts & -> & Hts)].
    by rewrite length_app, Hts, acquisitions_rows.
Qed.



Lemma fetch_paces_requests_witness :
  ∃ k, http_log (fetch_domain_metrics "a.com" 3
                   (world_at 1000000 [] [Answer too_many_429; Answer ok_200])).2
       = [] ++ replicate k "a.com".
Proof.
  destruct (fetch_paces_requests "a.com" 3
              (world_at 1000000 [] [Answer too_many_429; Answer ok_200]) _ _
              (surjective_pairing _)) as (k & _ & _ & _ & H & _).
  by exists k.
Defined.

Lemma collect_requests_in_order_witness :
  ∃ results w' ks,
    collect_all_data three_rows 2 false (world_at 1000000 (replicate 40 1%N) three_replies)
    = (Returned results, w') ∧
    length ks = length three_rows ∧
    http_log w' = [] ++ concat (zip_with (λ row k, replicate k (row_domain row)) three_rows ks).
Proof.
  destruct (returns_inv _ three_rows_collected) as (results & w' & E).
  destruct (collect_requests_in_order three_rows 2 false _ results w' E)
    as (ks & Hlen & _ & _ & Hlog & _).
  exists results, w', ks. by split_and!.
Defined.

Lemma substring_length n s : (String.length (String.substring 0 n s) ≤ n)%nat.
Proof.
  revert s. induction n as [|n IH]; intros [|c s]; simpl; try lia.
  specialize (IH s). lia.
Qed.

Lemma handle_response_other domain r w :
  status_code r ≠ 200 → status_code r ≠ 404 → status_code r ≠ 429 →
  handle_response domain r w
  = (Returned (Return (failure_record domain (http_error r) (clock (advance w)))), advance w).
Proof.
  intros H1 H2 H3. unfold handle_response.
  rewrite (proj2 (Z.eqb_neq _ _) H1), (proj2 (Z.eqb_neq _ _) H2), (proj2 (Z.eqb_neq _ _) H3).
  unfold bind. by rewrite failure_eq.
Qed.

(** X6.  When the first answer is neither 200, 404 nor 429,
    [fetch_domain_metrics] (with at least one attempt allowed) returns at
    once, after one request and no wait for a 429: the record it returns
    has [api_success = False] and the error text [HTTP <status>: ] followed
    by the first 200 characters of the body. *)
Theorem fetch_other_status domain max_retries w r rest :
  0 < max_retries →
  server w = Answer r :: rest →
  status_code r ≠ 200 → status_code r ≠ 404 → status_code r ≠ 429 →
  ∃ t w',
    fetch_domain_metrics domain max_retries w
    = (Returned (failure_record domain (http_error r) t), w') ∧
    http_log w' = http_log w ++ [domain] ∧
    server w' = rest ∧
    retry_waits w' = retry_waits w ∧
    (String.length (String.substring 0 200 (text r)) ≤ 200)%nat.
Proof.
  intros Hpos Hs H1 H2 H3. unfold fetch_domain_metrics. rewrite range_pos by done.
  simpl. unfold bind at 1.
  destruct (attempt_body_answer domain max_retries 0 w r rest Hs) as (w1 & F & Hs1 & ->).
  unfold try_except_request. rewrite handle_response_other by done.
  unfold ret. eexists _, _. split; [done |].
  pose proof (effect_trans_quiet_r _ _ _ _ _ F (effect_advance w1)) as [Hh Hsv Hw _ _ _ _].
  split_and!; try done.
  - rewrite Hsv. simpl. by rewrite Hs.
  - by rewrite Hw, app_nil_r.
  - apply substring_length.
Qed.

Lemma omap_rate_limit (rl : list (Pause * Z)) :
  Forall (λ e, e.1 = RateLimitWait) rl →
  omap backoff_wait rl = [] ∧ omap retry_wait rl = [].
Proof.
  induction rl as [|[p d] rl IH]; [done |].
  intros [Hp Hrl]%Forall_cons. simpl in Hp. subst p.
  destruct (IH Hrl) as [IH1 IH2].
  split; [change (omap backoff_wait rl = []) | change (omap retry_wait rl = [])]; done.
Qed.

Lemma waits_rate_limit w w' rl :
  sleep_log w' = sleep_log w ++ rl → Forall (λ e, e.1 = RateLimitWait) rl →
  backoff_waits w' = backoff_waits w ∧ retry_waits w' = retry_waits w.
Proof.
  intros Hsl H. unfold backoff_waits, retry_waits. rewrite Hsl, !omap_app.
  destruct (omap_rate_limit rl H) as [-> ->]. by rewrite !app_nil_r.
Qed.

Lemma advance_frame w :
  http_log (advance w) = http_log w ∧ server (advance w) = server w ∧
  sleep_log (advance w) = sleep_log w ∧ issued (advance w) = issued w ∧
  limiter (advance w) = limiter w.
Proof. destruct (advance_eta w) as (d & ds & _ & ->). done. Qed.

Lemma attempt_body_fails domain max_retries attempt w msg rest :
  server w = Fails msg :: rest →
  ∃ w1, attempt_body domain max_retries attempt w
        = on_request_exception domain max_retries attempt msg w1 ∧
    http_log w1 = http_log w ++ [domain] ∧ server w1 = rest ∧
    backoff_waits w1 = backoff_waits w ∧ retry_waits w1 = retry_waits w.
Proof.
  intros Hs.
  destruct (respect_rate_limits_step w)
    as (w0 & E & _ & _ & Hsv & Hh & _ & _ & _ & (rl & Hsl & Hrl) & _).
  unfold attempt_body, try_except_request, attempt_request.
  rewrite (bind_returned _ _ _ _ _ E).
  unfold bind, requests_get. rewrite Hsv, Hs.
  eexists. split; [reflexivity |]. simpl. rewrite Hh. split_and!; [done | done | |].
  - by apply (waits_rate_limit w _ rl).
  - by apply (waits_rate_limit w _ rl).
Qed.

Lemma on_request_exception_last domain max_retries msg w :
  on_request_exception domain max_retries (max_retries - 1) msg w
  = (Returned (Return (failure_record domain ("Request exception: " +:+ msg)
                         (clock (advance w)))), advance w).
Proof.
  unfold on_request_exception. rewrite Z.eqb_refl. unfold bind. by rewrite failure_eq.
Qed.

Lemma on_request_exception_retry domain max_retries attempt msg w :
  0 ≤ attempt → attempt ≠ max_retries - 1 →
  ∃ w', on_request_exception domain max_retries attempt msg w = (Returned Continue, w') ∧
    http_log w' = http_log w ∧ server w' = server w ∧
    backoff_waits w' = backoff_waits w ++ [2 ^ attempt * SECOND] ∧
    retry_waits w' = retry_waits w.
Proof.
  intros Hpos Hne. unfold on_request_exception.
  rewrite (proj2 (Z.eqb_neq _ _) Hne). unfold bind, time_sleep.
  pose proof (Z.pow_nonneg 2 attempt ltac:(lia)).
  destruct (Z.ltb_spec (2 ^ attempt * SECOND) 0); [unfold SECOND in *; lia |].
  eexists. split; [reflexivity |]. simpl. split_and!; [done | done | |].
  - unfold backoff_waits. simpl. by rewrite omap_app.
  - unfold retry_waits. simpl. rewrite omap_app. simpl. by rewrite app_nil_r.
Qed.

Lemma fetch_attempts_all_fail domain max_retries msgs : ∀ a w rest,
  msgs ≠ [] → 0 ≤ a → a + Z.of_nat (length msgs) = max_retries →
  server w = (Fails <$> msgs) ++ rest →
  ∃ w', fetch_attempts domain max_retries (seqZ a (Z.of_nat (length msgs))) w
        = (Returned (failure_record domain
                       ("Request exception: " +:+ default "" (last msgs)) (clock w')), w') ∧
    http_log w' = http_log w ++ replicate (length msgs) domain ∧
    server w' = rest ∧
    backoff_waits w' = backoff_waits w
                       ++ ((λ i, 2 ^ i * SECOND) <$> seqZ a (Z.of_nat (length msgs) - 1)) ∧
    retry_waits w' = retry_waits w.
Proof.
  induction msgs as [|msg msgs IH]; intros a w rest Hne Ha Hlen Hs; [done |].
  rewrite seqZ_cons by (simpl; lia). simpl fetch_attempts. unfold bind at 1.
  simpl in Hs.
  destruct (attempt_body_fails domain max_retries a w msg _ Hs)
    as (w1 & -> & Hh1 & Hs1 & Hb1 & Hr1).
  destruct msgs as [|msg' msgs].
  - simpl in Hlen. replace a with (max_retries - 1) by lia.
    rewrite on_request_exception_last. unfold ret.
    destruct (advance_frame w1) as (Hh & Hsv & Hsl & _).
    eexists. split; [reflexivity |]. split_and!.
    + by rewrite Hh, Hh1.
    + by rewrite Hsv, Hs1.
    + unfold backoff_waits in *. rewrite Hsl, Hb1. simpl. by rewrite app_nil_r.
    + unfold retry_waits in *. by rewrite Hsl, Hr1.
  - destruct (on_request_exception_retry domain max_retries a msg w1 Ha)
      as (w2 & -> & Hh2 & Hs2 & Hb2 & Hr2); [simpl in Hlen; lia |].
    destruct (IH (Z.succ a) w2 rest ltac:(done) ltac:(lia)) as (w3 & E & Hh3 & Hs3 & Hb3 & Hr3).
    { simpl in *. lia. }
    { by rewrite Hs2, Hs1. }
    replace (Z.pred (Z.of_nat (S (length (msg' :: msgs)))))
      with (Z.of_nat (length (msg' :: msgs))) by lia.
    rewrite E. eexists. split; [reflexivity |]. split_and!.
    + rewrite Hh3, Hh2, Hh1. rewrite <- app_assoc. done.
    + done.
    + rewrite Hb3, Hb2, Hb1, <- app_assoc. f_equal.
      replace (Z.of_nat (length (msg :: msg' :: msgs)) - 1)
        with (Z.succ (Z.of_nat (length (msg' :: msgs)) - 1)) by (simpl; lia).
      rewrite (seqZ_cons a) by (simpl; lia). simpl. do 3 f_equal. lia.
    + by rewrite Hr3, Hr2, Hr1.
Qed.

(** X7.  When every one of the [max_retries] requests fails with a
    [RequestException], [fetch_domain_metrics] sends exactly [max_retries]
    requests, sleeps [2 ** attempt] seconds after each failure but the
    last (1, 2, 4, ... seconds), never waits for a 429, and returns the
    record whose error is [Request exception: ] followed by the message of
    the last failure. *)
Theorem fetch_all_requests_fail domain max_retries w msgs rest :
  0 < max_retries →
  Z.of_nat (length msgs) = max_retries →
  server w = (Fails <$> msgs) ++ rest →
  ∃ t w',
    fetch_domain_metrics domain max_retries w
    = (Returned (failure_record domain
                   ("Request exception: " +:+ default "" (last msgs)) t), w') ∧
    http_log w' = http_log w ++ replicate (length msgs) domain ∧
    server w' = rest ∧
    backoff_waits w' = backoff_waits w
                       ++ ((λ i, 2 ^ i * SECOND) <$> seqZ 0 (max_retries - 1)) ∧
    retry_waits w' = retry_waits w.
Proof.
  intros Hpos Hlen Hs. subst max_retries. unfold fetch_domain_metrics, range.
  destruct (fetch_attempts_all_fail domain (Z.of_nat (length msgs)) msgs 0 w rest)
    as (w' & E & Hh & Hsv & Hb & Hr); [intros ->; simpl in Hpos; lia | done | lia | done |].
  exists (clock w'), w'. by split_and!.
Qed.

(** X8.  With [max_retries] zero or negative the loop does not run:
    [fetch_domain_metrics] returns the record ['Max retries exceeded']
    without consulting the rate limiter, sending a request or sleeping. *)
Theorem fetch_without_attempts domain max_retries w :
  max_retries ≤ 0 →
  ∃ t w',
    fetch_domain_metrics domain max_retries w
    = (Returned (failure_record domain "Max retries exceeded" t), w') ∧
    http_log w' = http_log w ∧ server w' = server w ∧
    issued w' = issued w ∧ limiter w' = limiter w ∧ sleep_log w' = sleep_log w.
Proof.
  intros Hle. unfold fetch_domain_metrics, range.
  assert (seqZ 0 max_retries = []) as -> by (unfold seqZ; by rewrite Z2Nat.nonpos).
  simpl. rewrite failure_eq.
  destruct (advance_frame w) as (Hh & Hs & Hsl & Hi & Hl).
  by exists (clock (advance w)), (advance w).
Qed.

Lemma get_fields_dict d keys : ∀ acc w,
  ∃ r, get_fields (DataDict d) keys acc w = (Returned r, w) ∧
    ∀ k, r !! k = if decide (k ∈ keys)
                  then Some (default VNone (py_of_json <$> d !! k))
                  else acc !! k.
Proof.
  induction keys as [|key keys IH]; intros acc w.
  - exists acc. split; [done |]. intros k. rewrite decide_False; [done | apply not_elem_of_nil].
  - destruct (IH (<[key := default VNone (py_of_json <$> d !! key)]> acc) w) as (r & E & Hr).
    exists r. split; [exact E |]. intros k. rewrite Hr.
    destruct (decide (k ∈ keys)) as [Hin|Hnin].
    + rewrite decide_True; [done | by right].
    + destruct (decide (k = key)) as [->|Hne].
      * rewrite decide_True by left. by rewrite lookup_insert_eq.
      * rewrite decide_False by (intros [?|?]%elem_of_cons; done).
        by rewrite lookup_insert_ne.
Qed.

Lemma metric_fields_fresh k :
  k ∈ METRIC_FIELDS →
  k ≠ "domain" ∧ k ≠ "api_success" ∧ k ≠ "api_error" ∧ k ≠ "fetched_at".
Proof.
  intros Hk.
  assert (Forall (λ k, k ≠ "domain" ∧ k ≠ "api_success" ∧ k ≠ "api_error" ∧ k ≠ "fetched_at")
            METRIC_FIELDS) as Hall.
  { apply (bool_decide_unpack _). vm_compute. exact I. }
  by apply (proj1 (Forall_forall _ _) Hall).
Qed.

Lemma handle_response_200_fields domain r w fields :
  status_code r = 200 → json r = BodyDict fields →
  ∃ res, handle_response domain r w = (Returned (Return res), advance w) ∧
    res !! "domain" = Some (VStr domain) ∧
    res !! "api_success" = Some (VBool true) ∧
    res !! "api_error" = Some VNone ∧
    res !! "fetched_at" = Some (VIso (clock (advance w))) ∧
    (∀ k, k ∈ METRIC_FIELDS → res !! k = Some (body_get fields k)) ∧
    (∀ k, is_Some (res !! k) → k ∈ RECORD_KEYS).
Proof.
  intros H Hj. unfold handle_response. rewrite H, Z.eqb_refl.
  unfold bind at 1, response_json. rewrite Hj. unfold ret at 1. cbv beta iota.
  unfold bind at 1.
  destruct (get_fields_dict (list_to_map (reverse fields)) METRIC_FIELDS
              {["domain" := VStr domain]} w) as (acc & -> & Hacc).
  unfold bind, datetime_now, time_time, ret. cbv beta iota zeta.
  eexists. split; [reflexivity |].
  assert (acc !! "domain" = Some (VStr domain)) as Hdom.
  { rewrite Hacc, decide_False by apply domain_not_metric. apply lookup_singleton_eq. }
  split_and!.
  - by rewrite !lookup_insert_ne.
  - do 2 (rewrite lookup_insert_ne by done). apply lookup_insert_eq.
  - rewrite lookup_insert_ne by done. apply lookup_insert_eq.
  - apply lookup_insert_eq.
  - intros k Hk. destruct (metric_fields_fresh k Hk) as (_ & H1 & H2 & H3).
    rewrite !lookup_insert_ne by done. by rewrite Hacc, decide_True.
  - intros k Hk. unfold RECORD_KEYS.
    destruct (decide (k = "fetched_at")) as [->|H3]; [apply elem_of_app; left; set_solver |].
    destruct (decide (k = "api_error")) as [->|H2]; [apply elem_of_app; left; set_solver |].
    destruct (decide (k = "api_success")) as [->|H1]; [apply elem_of_app; left; set_solver |].
    rewrite !lookup_insert_ne in Hk by done. rewrite Hacc in Hk.
    destruct (decide (k ∈ METRIC_FIELDS)) as [Hin|Hnin]; [apply elem_of_app; by right |].
    apply elem_of_app. left.
    destruct (decide (k = "domain")) as [->|H0]; [set_solver |].
    rewrite lookup_singleton_ne in Hk by done. by destruct Hk.
Qed.

(** X9.  When the first answer is a 200 whose body is a JSON object,
    [fetch_domain_metrics] returns after one request a record with
    [api_success = True] and [api_error = None], in which each of the 19
    metric fields holds what the body holds under that name, [None] when
    the body has no such member; members of the body outside this list are
    dropped. *)
Theorem fetch_200_passes_fields domain max_retries w r rest fields :
  0 < max_retries →
  server w = Answer r :: rest →
  status_code r = 200 → json r = BodyDict fields →
  ∃ res w',
    fetch_domain_metrics domain max_retries w = (Returned res, w') ∧
    http_log w' = http_log w ++ [domain] ∧
    server w' = rest ∧
    res !! "domain" = Some (VStr domain) ∧
    res !! "api_success" = Some (VBool true) ∧
    res !! "api_error" = Some VNone ∧
    (∀ k, k ∈ METRIC_FIELDS → res !! k = Some (body_get fields k)) ∧
    (∀ k, is_Some (res !! k) → k ∈ RECORD_KEYS).
Proof.
  intros Hpos Hs H200 Hj. unfold fetch_domain_metrics. rewrite range_pos by done.
  simpl. unfold bind at 1.
  destruct (attempt_body_answer domain max_retries 0 w r rest Hs) as (w1 & F & Hs1 & ->).
  unfold try_except_request.
  destruct (handle_response_200_fields domain r w1 fields H200 Hj)
    as (res & -> & Hd & Hok & Herr & _ & Hf & Hkeys).
  unfold ret. exists res, (advance w1). split; [done |].
  pose proof (effect_trans_quiet_r _ _ _ _ _ F (effect_advance w1)) as [Hh Hsv _ _ _ _ _].
  split_and!; try done.
  rewrite Hsv. simpl. by rewrite Hs.
Qed.

Lemma fetch_other_status_witness :
  ∃ t w',
    fetch_domain_metrics "a.com" 3 (world_at 1000000 [] [Answer error_500])
    = (Returned (failure_record "a.com" (http_error error_500) t), w') ∧
    http_log w' = [] ++ ["a.com"].
Proof.
  destruct (fetch_other_status "a.com" 3 (world_at 1000000 [] [Answer error_500]) error_500 []
              ltac:(lia) eq_refl ltac:(done) ltac:(done) ltac:(done))
    as (t & w' & E & Hh & _).
  by exists t, w'.
Defined.

Lemma fetch_all_requests_fail_witness :
  ∃ t w',
    fetch_domain_metrics "a.com" 3 (world_at 1000000 [] (Fails <$> three_failures ++ []))
    = (Returned (failure_record "a.com"
                   ("Request exception: " +:+ default "" (last three_failures)) t), w') ∧
    length (backoff_waits w') = 2%nat.
Proof.
  destruct (fetch_all_requests_fail "a.com" 3
              (world_at 1000000 [] (Fails <$> three_failures ++ [])) three_failures []
              ltac:(lia) eq_refl eq_refl)
    as (t & w' & E & _ & _ & Hb & _).
  exists t, w'. split; [exact E |]. rewrite Hb. reflexivity.
Defined.

Lemma fetch_without_attempts_witness :
  ∃ t w',
    fetch_domain_metrics "a.com" 0 (world_at 1000000 [] [Answer ok_200])
    = (Returned (failure_record "a.com" "Max retries exceeded" t), w') ∧
    http_log w' = [].
Proof.
  destruct (fetch_without_attempts "a.com" 0 (world_at 1000000 [] [Answer ok_200]) ltac:(lia))
    as (t & w' & E & Hh & _).
  by exists t, w'.
Defined.

Lemma fetch_200_passes_fields_witness :
  ∃ res w',
    fetch_domain_metrics "a.com" 3 (world_at 1000000 [] [Answer ok_200]) = (Returned res, w') ∧
    res !! "name" = Some (VStr "A") ∧
    res !! "slug" = Some VNone.
Proof.
  destruct (fetch_200_passes_fields "a.com" 3 (world_at 1000000 [] [Answer ok_200]) ok_200 []
              [("name", JStr "A"); ("status", JNull)] ltac:(lia) eq_refl eq_refl eq_refl)
    as (res & w' & E & _ & _ & _ & _ & _ & Hf & _).
  exists res, w'. split_and!; [done | |].
  - rewrite Hf; [done | set_solver].
  - rewrite Hf; [done | set_solver].
Defined.

Lemma chars_before_slash s c :
  c ∈ chars (before_slash s) → c ∈ chars s ∧ c ≠ "/"%char.
Proof.
  induction s as [|a s IH]; simpl; [by intros ?%elem_of_nil |].
  destruct (Ascii.eqb_spec a "/"); [by intros ?%elem_of_nil |].
  intros [->|Hc]%elem_of_cons.
  - split; [left | done].
  - destruct (IH Hc). split; [by right | done].
Qed.

Lemma chars_after_prefix p : ∀ s rest c,
  after_prefix p s = Some rest → c ∈ chars rest → c ∈ chars s.
Proof.
  induction p as [|a p IH]; intros s rest c; simpl.
  - by intros [= ->].
  - destruct s as [|b s]; [done |]. destruct (Ascii.eqb a b); [| done].
    intros H Hc. right. by eapply IH.
Qed.

Lemma chars_remove_protocol s c : c ∈ chars (remove_protocol s) → c ∈ chars s.
Proof.
  unfold remove_protocol.
  destruct (after_prefix "https://" s) as [rest|] eqn:E; [by eapply chars_after_prefix |].
  destruct (after_prefix "http://" s) as [rest|] eqn:E'; [by eapply chars_after_prefix | done].
Qed.

Lemma chars_remove_www s c : c ∈ chars (remove_www s) → c ∈ chars s.
Proof.
  unfold remove_www.
  destruct (after_prefix "www." s) as [rest|] eqn:E; [by eapply chars_after_prefix | done].
Qed.

Lemma elem_of_drop_spaces l c : c ∈ drop_spaces l → c ∈ l.
Proof.
  induction l as [|a l IH]; simpl; [done |].
  destruct (is_space a); [intros H; right; by apply IH | done].
Qed.

Lemma chars_str_strip s c : c ∈ chars (str_strip s) → c ∈ chars s.
Proof.
  unfold chars, str_strip, strip_chars. rewrite String.list_ascii_of_string_of_list_ascii.
  intros H. rewrite elem_of_reverse in H. apply elem_of_drop_spaces in H.
  rewrite elem_of_reverse in H. exact (elem_of_drop_spaces _ _ H).
Qed.

Lemma chars_str_lower s c :
  c ∈ chars (str_lower s) → ∃ c0, c0 ∈ chars s ∧ c = lower_char c0.
Proof.
  induction s as [|a s IH]; simpl; [by intros ?%elem_of_nil |].
  intros [->|Hc]%elem_of_cons.
  - exists a. split; [left | done].
  - destruct (IH Hc) as (c0 & H0 & ->). exists c0. split; [by right | done].
Qed.

Lemma lower_char_not_upper c : ¬ is_upper (lower_char c).
Proof.
  unfold is_upper, lower_char.
  destruct (Nat.leb_spec 65 (nat_of_ascii c)); destruct (Nat.leb_spec (nat_of_ascii c) 90);
    simpl; try lia.
  rewrite nat_ascii_embedding by lia. lia.
Qed.

(** X10.  A domain that comes out of the cleaning both tables go through
    holds no [/] and no ASCII capital letter. *)
Theorem clean_domain_normal cell d c :
  clean_domain cell = Some d → c ∈ chars d → c ≠ "/"%char ∧ ¬ is_upper c.
Proof.
  unfold clean_domain. destruct cell as [s|]; [| done]. simpl.
  destruct (String.eqb _ ""); [done |]. intros [= <-] Hc.
  apply chars_before_slash in Hc as [Hc Hslash]. split; [done |].
  apply chars_remove_www, chars_remove_protocol, chars_str_strip, chars_str_lower in Hc
    as (c0 & _ & ->).
  apply lower_char_not_upper.
Qed.

Lemma clean_domain_normal_witness :
  clean_domain (Some "  HTTPS://WWW.Example.COM/Path ") = Some "example.com" ∧
  "e"%char ≠ "/"%char ∧ ¬ is_upper "e".
Proof.
  split; [vm_compute; reflexivity |].
  apply (clean_domain_normal (Some "  HTTPS://WWW.Example.COM/Path ") "example.com" "e"%char).
  - vm_compute. reflexivity.
  - left.
Defined.

Lemma network_eqb_eq a b : network_eqb a b = true ↔ a = b.
Proof.
  destruct a as [x|], b as [y|]; simpl; try (split; [done | done]).
  rewrite String.eqb_eq. split; [by intros -> | by intros [= ->]].
Qed.

(** X12.  The cleaning drops empty cells before it cuts the protocol,
    [www.] and the path, and not after: a Raptive URL that is cut down to
    nothing (such as [https://www./]) stays in the clean dataset as a row
    with the empty domain. *)
Theorem clean_dataset_keeps_empty_domain urls rows cell :
  cell ∈ urls → clean_domain cell = Some "" →
  mkRow "" (Some "Raptive") ∈ create_clean_domain_dataset urls rows.
Proof.
  intros Hin Hcell. apply clean_dataset_keeps_trusted.
  apply elem_of_raptive_domains_set. exists (mkRow "" (Some "Raptive")). split; [| done].
  unfold raptive_table. apply list_elem_of_fmap. exists "". split; [done |].
  apply list_elem_of_omap. by exists cell.
Qed.

Lemma clean_dataset_keeps_empty_domain_witness :
  mkRow "" (Some "Raptive")
  ∈ create_clean_domain_dataset [Some "a.com"; Some "https://www./"] competitor_rows.
Proof.
  apply (clean_dataset_keeps_empty_domain _ _ (Some "https://www./")).
  - right. left.
  - vm_compute. reflexivity.
Defined.

Lemma network_is_spec network r :
  Is_true (network_is network r) ↔ row_network r = network ∧ is_Some network.
Proof.
  unfold network_is. destruct network as [a|], (row_network r) as [b|]; simpl.
  - rewrite Is_true_true, String.eqb_eq. split.
    + intros ->. by split.
    + by intros [[= ->] _].
  - split; [done | by intros [? _]].
  - split; [done | by intros [_ [? ?]]].
  - split; [done | by intros [_ [? ?]]].
Qed.

Lemma network_rows_app network l1 l2 :
  network_rows network (l1 ++ l2) = network_rows network l1 ++ network_rows network l2.
Proof. apply filter_app. Qed.

Lemma network_rows_all network df :
  (∀ r, r ∈ df → Is_true (network_is network r)) → network_rows network df = df.
Proof.
  intros H. unfold network_rows. induction df as [|r df IH]; [done |].
  rewrite filter_cons, decide_True by (apply H; left).
  f_equal. apply IH. intros x Hx. apply H. by right.
Qed.

Lemma network_rows_none network df :
  (∀ r, r ∈ df → ¬ Is_true (network_is network r)) → network_rows network df = [].
Proof.
  intros H. unfold network_rows. induction df as [|r df IH]; [done |].
  rewrite filter_cons, decide_False by (apply H; left).
  apply IH. intros x Hx. apply H. by right.
Qed.

Lemma existsb_network_eqb x seen : existsb (network_eqb x) seen = true ↔ x ∈ seen.
Proof.
  induction seen as [|y seen IH]; simpl.
  - split; [done | by intros ?%elem_of_nil].
  - rewrite orb_true_iff, IH, network_eqb_eq, elem_of_cons. done.
Qed.

Lemma unique_spec l : ∀ seen,
  NoDup (unique seen l) ∧ ∀ x, x ∈ unique seen l ↔ x ∈ l ∧ x ∉ seen.
Proof.
  induction l as [|y l IH]; intros seen; simpl.
  - split; [constructor |]. intros x. split; [by intros ?%elem_of_nil | by intros [?%elem_of_nil _]].
  - destruct (existsb (network_eqb y) seen) eqn:E.
    + apply existsb_network_eqb in E. destruct (IH seen) as [Hnd Hin]. split; [done |].
      intros x. rewrite Hin, elem_of_cons. split; [intros [? ?]; auto |].
      intros [[->|?] ?]; [done | auto].
    + assert (y ∉ seen) as Hy.
      { intros Hy%existsb_network_eqb. by rewrite Hy in E. }
      destruct (IH (y :: seen)) as [Hnd Hin]. split.
      * constructor; [| done]. rewrite Hin. intros [_ Hn]. apply Hn. left.
      * intros x. rewrite elem_of_cons, Hin, !elem_of_cons. split.
        -- intros [->|[? Hn]]; [auto |]. split; [auto |]. intros ?. apply Hn. auto.
        -- intros [[->|?] Hn]; [auto |]. destruct (decide (x = y)) as [->|]; [auto |].
           right. split; [done |]. intros [?|?]; done.
Qed.

(** The rows of one network in the tables put end to end, when every table
    holds the rows of one network and no network comes twice. *)
Lemma network_rows_concat network : ∀ networks dfs,
  NoDup networks →
  Forall2 (λ net df, ∀ r, r ∈ df → Is_true (network_is net r)) networks dfs →
  (network ∉ networks → network_rows network (concat dfs) = []) ∧
  (∀ i df, networks !! i = Some network → dfs !! i = Some df →
           network_rows network (concat dfs) = df).
Proof.
  intros networks dfs Hnd Hall. induction Hall as [|net df networks dfs Hdf Hall IH].
  - split; [done |]. by intros i df ?.
  - apply NoDup_cons in Hnd as [Hnet Hnd]. destruct (IH Hnd) as [IH1 IH2].
    simpl. rewrite network_rows_app.
    assert (net ≠ network → network_rows network df = []) as Hother.
    { intros Hne. apply network_rows_none. intros r Hr Hmask.
      apply Hdf in Hr. apply network_is_spec in Hr as [Hr _].
      apply network_is_spec in Hmask as [Hmask _]. congruence. }
    split.
    + intros Hn. apply not_elem_of_cons in Hn as [Hne Hn].
      by rewrite Hother, IH1.
    + intros [|i] df' Hi Hdf'; simpl in *.
      * injection Hi as ->. injection Hdf' as ->.
        rewrite network_rows_all by done. rewrite IH1 by done. by rewrite app_nil_r.
      * rewrite Hother; [by eapply IH2 |].
        intros ->. apply Hnet. by eapply list_elem_of_lookup_2.
Qed.

Lemma omap_length_le {A B} (f : A → option B) (l : list A) :
  (length (omap f l) ≤ length l)%nat.
Proof.
  induction l as [|x l IH]; [done |].
  change (omap f (x :: l)) with (match f x with Some y => y :: omap f l | None => omap f l end).
  destruct (f x); simpl; lia.
Qed.

Section SampleProperties.

Variable choose : nat → nat → list nat.

(** [sample(n=n)] returns at most [n] rows. *)
Hypothesis choose_length : ∀ n len, (length (choose n len) ≤ n)%nat.

Lemma df_sample_length n df w sample w' :
  df_sample choose n df w = (Returned sample, w') → Z.of_nat (length sample) ≤ n.
Proof.
  unfold df_sample. destruct (Z.ltb_spec n 0); [done |]. intros [= <- _].
  pose proof (omap_length_le (λ i, df !! i) (choose (Z.to_nat n) (length df))) as Hle.
  pose proof (choose_length (Z.to_nat n) (length df)). lia.
Qed.

Lemma sample_network_facts clean_df sample_size network w df w' :
  sample_network choose clean_df sample_size network w = (Returned df, w') →
  w' = w ∧
  (∀ r, r ∈ df → Is_true (network_is network r)) ∧
  (network = Some "Aditude" → df = network_rows network clean_df) ∧
  (Z.of_nat (length (network_rows network clean_df)) ≤ sample_size →
   df = network_rows network clean_df) ∧
  (network ≠ Some "Aditude" → Z.of_nat (length df) ≤ sample_size).
Proof.
  intros H. pose proof H as Hw. apply sample_network_spec in Hw as [-> _].
  split; [done |]. revert H. unfold sample_network. fold (network_rows network clean_df).
  assert (∀ r, r ∈ network_rows network clean_df → Is_true (network_is network r)) as Hmask.
  { intros r Hr. by apply list_elem_of_filter in Hr as [Hr _]. }
  destruct (network_eqb network (Some "Aditude")) eqn:Ead.
  { intros [= <-]. split_and!; try done. intros Hne. by apply network_eqb_eq in Ead. }
  assert (network ≠ Some "Aditude") as Hne.
  { intros Heq%network_eqb_eq. by rewrite Heq in Ead. }
  destruct (Z.leb_spec (Z.of_nat (length (network_rows network clean_df))) sample_size).
  { intros [= <-]. by split_and!. }
  intros Hs. pose proof (df_sample_length _ _ _ _ _ Hs) as Hlen.
  apply df_sample_spec in Hs as [_ Hsub]. specialize (Hsub df eq_refl).
  split_and!; [| done | lia | done].
  intros r Hr. by apply Hmask, Hsub.
Qed.

Lemma sample_networks_facts clean_df sample_size networks : ∀ w dfs w',
  sample_networks choose clean_df sample_size networks w = (Returned dfs, w') →
  Forall2 (λ net df, sample_network choose clean_df sample_size net w = (Returned df, w))
          networks dfs.
Proof.
  induction networks as [|network networks IH]; intros w dfs w'; simpl.
  - intros [= <- _]. constructor.
  - intros H. bind_inv H as df w1 E1.
    pose proof E1 as Hw. apply sample_network_spec in Hw as [-> _].
    bind_inv H as dfs' w2 E2.
    pose proof E2 as Hw. apply sample_networks_spec in Hw as [-> _].
    injection H as <- _. constructor; [done | by eapply IH].
Qed.

End SampleProperties.

(** The rows of a network in the per-network tables put end to end: the
    table drawn for that network, or nothing when the input has no row of
    it. *)
Lemma concat_network_rows (P : option string → list Row → Prop) df networks dfs network :
  networks = unique [] (row_network <$> df) →
  Forall2 (λ net t, (∀ r, r ∈ t → Is_true (network_is net r)) ∧ P net t) networks dfs →
  is_Some network →
  (∃ t, network_rows network (concat dfs) = t ∧ P network t) ∨
  (network_rows network (concat dfs) = [] ∧ network_rows network df = []).
Proof.
  intros Hnets Hall Hsome.
  destruct (unique_spec (row_network <$> df) []) as [Hnd Hin]. rewrite <- Hnets in Hnd, Hin.
  assert (Forall2 (λ net t, ∀ r, r ∈ t → Is_true (network_is net r)) networks dfs) as Hmask.
  { eapply Forall2_impl; [exact Hall |]. by intros net t [? _]. }
  destruct (network_rows_concat network networks dfs Hnd Hmask) as [Hout Hat].
  destruct (decide (network ∈ networks)) as [Hn|Hn].
  - left. apply list_elem_of_lookup_1 in Hn as [i Hi].
    destruct (Forall2_lookup_l _ _ _ _ _ Hall Hi) as (t & Ht & _ & HP).
    exists t. split; [by eapply Hat | done].
  - right. split; [by apply Hout |].
    apply network_rows_none. intros r Hr Hm. apply Hn, Hin. split; [| apply not_elem_of_nil].
    apply network_is_spec in Hm as [<- _]. apply list_elem_of_fmap. by exists r.
Qed.

Lemma concat_rows_have_network networks dfs r :
  Forall2 (λ net t, ∀ r, r ∈ t → Is_true (network_is net r)) networks dfs →
  r ∈ concat dfs → is_Some (row_network r).
Proof.
  intros Hall. induction Hall as [|net t networks dfs Ht _ IH]; simpl.
  - by intros ?%elem_of_nil.
  - intros [Hr|Hr]%elem_of_app; [| by apply IH].
    apply Ht, network_is_spec in Hr as [-> ?]. done.
Qed.

Lemma pd_concat_inv dfs w (o : list Row) w' :
  pd_concat dfs w = (Returned o, w') → o = concat dfs ∧ w' = w.
Proof. unfold pd_concat. destruct dfs; [done |]. by intros [= <- <-]. Qed.

Section SampleDataset.

Variable choose : nat → nat → list nat.

Lemma create_sample_dataset_tables clean_df sample_size w sample w' :
  create_sample_dataset choose clean_df sample_size w = (Returned sample, w') →
  ∃ dfs, sample = concat dfs ∧
    Forall2 (λ net df, sample_network choose clean_df sample_size net w = (Returned df, w))
            (unique [] (row_network <$> clean_df)) dfs.
Proof.
  unfold create_sample_dataset. intros H.
  bind_inv H as dfs w1 E1. pose proof E1 as Hw. apply sample_networks_spec in Hw as [-> _].
  apply sample_networks_facts in E1.
  bind_inv H as final w2 E2. apply pd_concat_inv in E2 as [-> ->].
  exists dfs. split; [| done].
  unfold bind, os_makedirs, to_pickle, ret in H. by injection H as <- _.
Qed.

(** X13.  Every row of a sample that [create_sample_dataset] returns is a
    row of the clean table and has a network: rows whose network is
    missing are left out of the sample. *)
Theorem sample_rows_from_table clean_df sample_size w sample w' :
  create_sample_dataset choose clean_df sample_size w = (Returned sample, w') →
  ∀ r, r ∈ sample → r ∈ clean_df ∧ is_Some (row_network r).
Proof.
  intros H r Hr. split.
  - apply create_sample_dataset_spec in H as [_ Hsub]. by apply Hsub.
  - apply create_sample_dataset_tables in H as (dfs & -> & Hall).
    eapply concat_rows_have_network; [| exact Hr].
    eapply Forall2_impl; [exact Hall |]. intros net df Hs.
    apply sample_network_spec in Hs as Hw.
    unfold sample_network in Hs.
    assert (∀ x, x ∈ network_rows net clean_df → Is_true (network_is net x)) as Hmask.
    { intros x Hx. by apply list_elem_of_filter in Hx as [Hx _]. }
    fold (network_rows net clean_df) in Hs.
    destruct (network_eqb net (Some "Aditude")); [by injection Hs as <- |].
    destruct (Z.of_nat (length (network_rows net clean_df)) <=? sample_size);
      [by injection Hs as <- |].
    apply df_sample_spec in Hs as [_ Hsub]. intros x Hx. by apply Hmask, (Hsub df eq_refl).
Qed.

(** [sample(n=n)] returns at most [n] rows. *)
Hypothesis choose_length : ∀ n len, (length (choose n len) ≤ n)%nat.

(** X14.  In a sample that [create_sample_dataset] returns, a network
    other than Aditude has at most [sample_size] rows; the rows of Aditude
    are all there, in the order of the clean table; and so are the rows of
    every network that has at most [sample_size] rows in the clean
    table. *)
Theorem sample_caps_networks clean_df sample_size w sample w' :
  create_sample_dataset choose clean_df sample_size w = (Returned sample, w') →
  (∀ name, name ≠ "Aditude" →
     Z.of_nat (length (network_rows (Some name) sample)) ≤ Z.max 0 sample_size) ∧
  network_rows (Some "Aditude") sample = network_rows (Some "Aditude") clean_df ∧
  (∀ name, Z.of_nat (length (network_rows (Some name) clean_df)) ≤ sample_size →
     network_rows (Some name) sample = network_rows (Some name) clean_df).
Proof.
  intros H. apply create_sample_dataset_tables in H as (dfs & -> & Hall).
  pose (P := λ (net : option string) (df : list Row),
          (net = Some "Aditude" → df = network_rows net clean_df) ∧
          (Z.of_nat (length (network_rows net clean_df)) ≤ sample_size →
           df = network_rows net clean_df) ∧
          (net ≠ Some "Aditude" → Z.of_nat (length df) ≤ sample_size)).
  assert (Forall2 (λ net t, (∀ r, r ∈ t → Is_true (network_is net r)) ∧ P net t)
            (unique [] (row_network <$> clean_df)) dfs) as Hfacts.
  { eapply Forall2_impl; [exact Hall |]. intros net df Hs.
    apply (sample_network_facts choose choose_length) in Hs as (_ & Hm & Ha & Hk & Hc).
    by split. }
  pose proof (λ net, concat_network_rows P clean_df _ dfs net eq_refl Hfacts) as Hrows.
  split_and!.
  - intros name Hne.
    destruct (Hrows (Some name) ltac:(done)) as [(t & -> & _ & _ & Hc)|[-> _]]; [| simpl; lia].
    assert (Some name ≠ Some "Aditude") as Hne' by congruence. specialize (Hc Hne'). lia.
  - destruct (Hrows (Some "Aditude") ltac:(done)) as [(t & -> & Ha & _)|[-> ->]]; [| done].
    by apply Ha.
  - intros name Hle.
    destruct (Hrows (Some name) ltac:(done)) as [(t & -> & _ & Hk & _)|[-> ->]]; [| done].
    by apply Hk.
Qed.

End SampleDataset.

(** X15.  On an empty table both samplers raise the [ValueError] of
    [pd.concat] ([No objects to concatenate]), and [create_sample_dataset]
    then writes nothing. *)
Theorem samplers_refuse_empty_table choose size w :
  create_sample_dataset choose [] size w
  = (Raised (ValueError "No objects to concatenate"), w) ∧
  create_test_sample choose [] size w
  = (Raised (ValueError "No objects to concatenate"), w).
Proof. split; reflexivity. Qed.

Section TestSampleProperties.

Variable choose : nat → nat → list nat.

Lemma test_sample_network_spec sample_df size network w o w' :
  test_sample_network choose sample_df size network w = (o, w') →
  w' = w ∧ ∀ df, o = Returned df →
    (∀ r, r ∈ df → r ∈ sample_df ∧ Is_true (network_is network r)) ∧
    (Z.of_nat (length (network_rows network sample_df)) ≤ size →
     df = network_rows network sample_df) ∧
    ((∀ n len, (length (choose n len) ≤ n)%nat) → Z.of_nat (length df) ≤ size).
Proof.
  unfold test_sample_network. fold (network_rows network sample_df).
  assert (∀ r, r ∈ network_rows network sample_df →
               r ∈ sample_df ∧ Is_true (network_is network r)) as Hmask.
  { intros r Hr. by apply list_elem_of_filter in Hr as [? ?]. }
  destruct (Z.leb_spec (Z.of_nat (length (network_rows network sample_df))) size).
  - intros [= <- <-]. split; [done |]. intros df [= <-]. by split_and!.
  - intros Hs. pose proof Hs as Hs'. apply df_sample_spec in Hs' as [-> Hsub].
    split; [done |]. intros df ->. specialize (Hsub df eq_refl). split_and!.
    + intros r Hr. by apply Hmask, Hsub.
    + lia.
    + intros Hchoose. by eapply df_sample_length.
Qed.

Lemma test_sample_networks_spec sample_df size networks : ∀ w o w',
  test_sample_networks choose sample_df size networks w = (o, w') →
  w' = w ∧ ∀ dfs, o = Returned dfs →
    Forall2 (λ net df, test_sample_network choose sample_df size net w = (Returned df, w))
            networks dfs.
Proof.
  induction networks as [|network networks IH]; intros w o w'; simpl.
  - intros [= <- <-]. split; [done |]. intros dfs [= <-]. constructor.
  - unfold bind at 1.
    destruct (test_sample_network _ _ _ _ w) as [o1 w1] eqn:E1.
    pose proof E1 as Hw. apply test_sample_network_spec in Hw as [-> _].
    destruct o1 as [df|e]; [| intros [= <- <-]; by split].
    unfold bind at 1.
    destruct (test_sample_networks _ _ _ _ w) as [o2 w2] eqn:E2.
    apply IH in E2 as [-> H2].
    destruct o2 as [dfs|e]; [| intros [= <- <-]; by split].
    intros [= <- <-]. split; [done |]. intros ? [= <-]. constructor; [done | by apply H2].
Qed.

(** X16.  [create_test_sample] changes nothing: it writes no file, whether
    it returns or raises (the sampler of the first script, which has the
    same loop, writes its pickle).  Every row of the test sample is a row
    of the full sample and has a network. *)
Theorem create_test_sample_pure sample_df size w o w' :
  create_test_sample choose sample_df size w = (o, w') →
  w' = w ∧
  ∀ test_df, o = Returned test_df →
    ∀ r, r ∈ test_df → r ∈ sample_df ∧ is_Some (row_network r).
Proof.
  unfold create_test_sample. unfold bind.
  destruct (test_sample_networks _ _ _ _ w) as [o1 w1] eqn:E1.
  apply test_sample_networks_spec in E1 as [-> Hall].
  destruct o1 as [dfs|e]; [| by intros [= <- <-]].
  specialize (Hall dfs eq_refl).
  assert (∀ r, r ∈ concat dfs → r ∈ sample_df ∧ is_Some (row_network r)) as Hrows.
  { induction Hall as [|net t networks tables Ht _ IH]; simpl.
    - by intros r ?%elem_of_nil.
    - intros r [Hr|Hr]%elem_of_app; [| by apply IH].
      apply test_sample_network_spec in Ht as [_ Ht].
      destruct (Ht t eq_refl) as (Hm & _). apply Hm in Hr as [Hin Hmask].
      split; [done |]. apply network_is_spec in Hmask as [-> ?]. done. }
  unfold pd_concat. destruct dfs as [|df dfs]; [by intros [= <- <-] |].
  intros [= <- <-]. split; [done |]. by intros ? [= <-].
Qed.

(** [sample(n=n)] returns at most [n] rows. *)
Hypothesis choose_length : ∀ n len, (length (choose n len) ≤ n)%nat.

(** X17.  In a test sample every network, Aditude included, has at most
    [test_size_per_network] rows, and a network that has no more rows than
    that in the full sample keeps them all. *)
Theorem test_sample_caps_networks sample_df size w test_df w' :
  create_test_sample choose sample_df size w = (Returned test_df, w') →
  (∀ name, Z.of_nat (length (network_rows (Some name) test_df)) ≤ Z.max 0 size) ∧
  (∀ name, Z.of_nat (length (network_rows (Some name) sample_df)) ≤ size →
     network_rows (Some name) test_df = network_rows (Some name) sample_df).
Proof.
  unfold create_test_sample. intros H.
  bind_inv H as dfs w1 E1. apply test_sample_networks_spec in E1 as [-> Hall].
  specialize (Hall dfs eq_refl). apply pd_concat_inv in H as [-> _].
  pose (P := λ (net : option string) (df : list Row),
          (Z.of_nat (length (network_rows net sample_df)) ≤ size →
           df = network_rows net sample_df) ∧
          Z.of_nat (length df) ≤ size).
  assert (Forall2 (λ net t, (∀ r, r ∈ t → Is_true (network_is net r)) ∧ P net t)
            (unique [] (row_network <$> sample_df)) dfs) as Hfacts.
  { eapply Forall2_impl; [exact Hall |]. intros net df Hs.
    apply test_sample_network_spec in Hs as [_ Hs].
    destruct (Hs df eq_refl) as (Hm & Hk & Hc). split; [| split; [done | by apply Hc]].
    intros r Hr. by apply Hm. }
  pose proof (λ net, concat_network_rows P sample_df _ dfs net eq_refl Hfacts) as Hrows.
  split.
  - intros name.
    destruct (Hrows (Some name) ltac:(done)) as [(t & -> & _ & Hc)|[-> _]]; [lia | simpl; lia].
  - intros name Hle.
    destruct (Hrows (Some name) ltac:(done)) as [(t & -> & Hk & _)|[-> ->]]; [| done].
    by apply Hk.
Qed.

End TestSampleProperties.

Lemma first_rows_length n len : (length (first_rows n len) ≤ n)%nat.
Proof. unfold first_rows. by rewrite length_seq. Qed.

Lemma five_rows_sampled :
  returns (create_sample_dataset first_rows five_rows 1 (world_at 0 [] [])) = true.
Proof. vm_compute. reflexivity. Qed.

Lemma five_rows_test_sampled :
  returns (create_test_sample first_rows five_rows 1 (world_at 0 [] [])) = true.
Proof. vm_compute. reflexivity. Qed.

Lemma sample_rows_from_table_witness :
  ∃ sample w',
    create_sample_dataset first_rows five_rows 1 (world_at 0 [] []) = (Returned sample, w') ∧
    ∀ r, r ∈ sample → r ∈ five_rows ∧ is_Some (row_network r).
Proof.
  destruct (returns_inv _ five_rows_sampled) as (sample & w' & E).
  exists sample, w'. split; [exact E |].
  exact (sample_rows_from_table first_rows five_rows 1 _ sample w' E).
Defined.

Lemma sample_caps_networks_witness :
  ∃ sample w',
    create_sample_dataset first_rows five_rows 1 (world_at 0 [] []) = (Returned sample, w') ∧
    Z.of_nat (length (network_rows (Some "Mediavine") sample)) ≤ Z.max 0 1 ∧
    network_rows (Some "Aditude") sample = network_rows (Some "Aditude") five_rows.
Proof.
  destruct (returns_inv _ five_rows_sampled) as (sample & w' & E).
  destruct (sample_caps_networks first_rows first_rows_length five_rows 1 _ sample w' E)
    as (Hcap & Hadi & _).
  exists sample, w'. split_and!; [exact E | by apply Hcap | exact Hadi].
Defined.

Lemma create_test_sample_pure_witness :
  (create_test_sample first_rows five_rows 1 (world_at 0 [] [])).2 = world_at 0 [] [].
Proof.
  exact (proj1 (create_test_sample_pure first_rows five_rows 1 (world_at 0 [] []) _ _
                  (surjective_pairing _))).
Defined.

Lemma test_sample_caps_networks_witness :
  ∃ test_df w',
    create_test_sample first_rows five_rows 1 (world_at 0 [] []) = (Returned test_df, w') ∧
    Z.of_nat (length (network_rows (Some "Aditude") test_df)) ≤ Z.max 0 1.
Proof.
  destruct (returns_inv _ five_rows_test_sampled) as (test_df & w' & E).
  destruct (test_sample_caps_networks first_rows first_rows_length five_rows 1 _ test_df w' E)
    as (Hcap & _).
  exists test_df, w'. split; [exact E | apply Hcap].
Defined.

(** X18.  A collection run that returns gives one result per row of the
    sample, in the order of the sample; the result of a row carries the
    row's domain under [domain] and the row's network under [network]
    ([None] for a missing network). *)
Theorem collect_one_result_per_row sample_df batch_size is_testing w results w' :
  collect_all_data sample_df batch_size is_testing w = (Returned results, w') →
  length results = length sample_df ∧
  ∀ i row, sample_df !! i = Some row →
    ∃ res, results !! i = Some res ∧
      res !! "domain" = Some (VStr (row_domain row)) ∧
      res !! "network" = Some (py_of_text (row_network row)).
Proof.
  intros H. apply collect_all_data_spec in H as (_ & _ & Htag & _). split.
  - symmetry. by eapply Forall2_length.
  - intros i row Hi. destruct (Forall2_lookup_l _ _ _ _ _ Htag Hi) as (res & Hres & Hd & Hn).
    by exists res.
Qed.

(** X19.  With [batch_size = 0] the collection never returns: on a sample
    that is not empty the test [i % batch_size] of the first row raises
    [ZeroDivisionError], unless the fetch before it has raised. *)
Theorem collect_zero_batch_size_raises sample_df is_testing w :
  ∃ e, (collect_all_data sample_df 0 is_testing w).1 = Raised e.
Proof.
  destruct (collect_all_data sample_df 0 is_testing w) as [[results|e] w'] eqn:E;
    [| by exists e].
  apply collect_all_data_spec in E as (HB & _). exfalso. apply HB.
  by destruct is_testing.
Qed.

Lemma collect_one_result_per_row_witness :
  ∃ results w',
    collect_all_data three_rows 2 false (world_at 1000000 (replicate 40 1%N) three_replies)
    = (Returned results, w') ∧
    length results = length three_rows.
Proof.
  destruct (returns_inv _ three_rows_collected) as (results & w' & E).
  exists results, w'. split; [exact E |].
  exact (proj1 (collect_one_result_per_row three_rows 2 false _ results w' E)).
Defined.
